(** * TTS node: audio assembly and PCM encoding pipeline

    A shallow embedding of [src/nodes/ExampleNode/ExampleNode.node.ts]
    (the helpers [concatFloat32Arrays] and [float32ToInt16], and the
    [execute] method of [TTSNode]) together with the properties of the
    pipeline stated in the specification.

    JavaScript numbers are IEEE 754 binary64 values; they are modelled with
    the executable specification of floating-point arithmetic of the
    Standard Library ([SpecFloat]), instantiated at precision 53 and maximal
    exponent 1024.  JavaScript strings are sequences of UTF-16 code units. *)

From Stdlib Require Import String Ascii.
From Stdlib Require Import ZArith NArith PeanoNat Bool List Lia.
From Stdlib Require Import QArith Qround.
From Stdlib Require Import SpecFloat.
Import ListNotations.

Local Close Scope Q_scope.

Set Implicit Arguments.

(** ** Numbers *)

Module JsNumber.

Definition prec : Z := 53.
Definition emax : Z := 1024.

Definition number := spec_float.

(** The number [m * 2^e], rounded to binary64. *)
Definition dyadic (m e : Z) : number := binary_normalize prec emax m e false.

(** An integer literal. *)
Definition of_Z (z : Z) : number := dyadic z 0.

Definition zero : number := S754_zero false.

Definition mul (x y : number) : number := SFmul prec emax x y.

(** [x < y] *)
Definition lt (x y : number) : bool := SFltb x y.

Definition isNaN (x : number) : bool :=
  match x with S754_nan => true | _ => false end.

Definition isNegZero (x : number) : bool :=
  match x with S754_zero true => true | _ => false end.

(** [Math.min(x, y)]: NaN if either argument is NaN, and -0 is smaller
    than +0. *)
Definition Math_min (x y : number) : number :=
  if isNaN x || isNaN y then S754_nan
  else if lt x y then x
  else if lt y x then y
  else if isNegZero x then x else y.

(** [Math.max(x, y)]: NaN if either argument is NaN, and +0 is larger
    than -0. *)
Definition Math_max (x y : number) : number :=
  if isNaN x || isNaN y then S754_nan
  else if lt x y then y
  else if lt y x then x
  else if isNegZero x then y else x.

(** The integral part of a finite number (rounding toward zero); [None]
    for NaN and the infinities. *)
Definition truncate (x : number) : option Z :=
  match x with
  | S754_zero _ => Some 0%Z
  | S754_finite s m e => Some (cond_Zopp s (Z.shiftl (Zpos m) e))
  | S754_infinity _ | S754_nan => None
  end.

(** [ToInt16], the conversion applied when a number is stored into an
    [Int16Array]: NaN and the infinities become 0, other numbers are
    truncated and reduced modulo 2^16 into [-2^15, 2^15). *)
Definition ToInt16 (x : number) : Z :=
  match truncate x with
  | Some z => ((z + 32768) mod 65536 - 32768)%Z
  | None => 0%Z
  end.

(** [ToIndex], the conversion applied to the length argument of a typed
    array constructor: NaN becomes 0, the fractional part is dropped, and
    a result outside [0, 2^53 - 1] is a RangeError ([None]). *)
Definition ToIndex (x : number) : option Z :=
  match x with
  | S754_nan => Some 0%Z
  | S754_infinity _ => None
  | _ =>
      match truncate x with
      | Some z => if ((z <? 0) || (9007199254740991 <? z))%Z then None else Some z
      | None => None
      end
  end.

End JsNumber.

Import JsNumber.

(** ** Strings *)

Module JsString.

(** A string is its sequence of UTF-16 code units. *)
Definition jsstring := list N.

(** A string literal made of ASCII characters. *)
Fixpoint lit (s : string) : jsstring :=
  match s with
  | EmptyString => []
  | String c r => N_of_ascii c :: lit r
  end.

(** The newline character, the separator of [text.split('\n')]. *)
Definition newline : N := 10.

Definition eqb (a b : jsstring) : bool :=
  if list_eq_dec N.eq_dec a b then true else false.

(** [s.split('\n')]: the maximal newline-free pieces of [s], in order;
    the result is never empty. *)
Fixpoint split (s : jsstring) : list jsstring :=
  match s with
  | [] => [[]]
  | c :: r =>
      if N.eqb c newline then [] :: split r
      else match split r with
           | [] => [[c]]
           | l :: ls => (c :: l) :: ls
           end
  end.

(** The code units removed by [String.prototype.trim]: the WhiteSpace
    and LineTerminator productions of ECMAScript. *)
Definition isWhiteSpace (c : N) : bool :=
  existsb (N.eqb c)
    [9; 10; 11; 12; 13; 32; 160; 5760; 8232; 8233; 8239; 8287; 12288; 65279]%N
  || ((8192 <=? c) && (c <=? 8202))%N.

Fixpoint trimStart (s : jsstring) : jsstring :=
  match s with
  | [] => []
  | c :: r => if isWhiteSpace c then trimStart r else s
  end.

Definition trimEnd (s : jsstring) : jsstring := rev (trimStart (rev s)).

Definition trim (s : jsstring) : jsstring := trimEnd (trimStart s).

(** A string is truthy unless it is empty. *)
Definition truthy (s : jsstring) : bool :=
  match s with [] => false | _ => true end.

End JsString.

Import JsString.

(** ** Typed arrays *)

(** A [Float32Array] is the list of its elements, read back as numbers. *)
Definition Float32Array := list number.

(** An [Int16Array] is the list of its elements. *)
Definition Int16Array := list Z.

(** A [Float32Array] is created only when the engine finds the memory for
    its elements; otherwise the constructor raises a RangeError.  What the
    engine decides is not in the program: [grant n] is its answer to one
    request for [n] elements.  An array without elements needs no memory
    and is always created. *)
Definition granted (grant : Z -> bool) (n : Z) : bool :=
  (n =? 0)%Z || grant n.

(** The elements of a typed array that has just been created: zeros. *)
Definition Float32Array_alloc (n : nat) : Float32Array := repeat zero n.

(** [new Int16Array(n)] for the length of a buffer that exists. *)
Definition Int16Array_alloc (n : nat) : Int16Array := repeat 0%Z n.

(** [new Float32Array(length)] with a number as argument: the length goes
    through [ToIndex], the engine is asked for that many elements, and
    the elements are initialised to zero.  [None] stands for the
    RangeError, of a length that [ToIndex] refuses or of an allocation
    that the engine refuses. *)
Definition Float32Array_new (grant : Z -> bool) (length : number)
  : option Float32Array :=
  match ToIndex length with
  | Some n =>
      if granted grant n then Some (repeat zero (Z.to_nat n)) else None
  | None => None
  end.

(** [new Float32Array(n)] for a length that is already a non-negative
    integer (line 15). *)
Definition Float32Array_ofLength (grant : Z -> bool) (n : nat)
  : option Float32Array :=
  if granted grant (Z.of_nat n) then Some (Float32Array_alloc n) else None.

(** [result[i] = v] on a typed array: an index past the end is ignored. *)
Fixpoint array_store {A : Type} (a : list A) (i : nat) (v : A) : list A :=
  match a, i with
  | [], _ => []
  | _ :: r, O => v :: r
  | x :: r, S j => x :: array_store r j v
  end.

(** [result.set(arr, offset)]: copies [arr] into [result] starting at
    [offset]; a RangeError ([None]) when [arr] does not fit. *)
Definition array_set {A : Type} (result arr : list A) (offset : nat)
  : option (list A) :=
  if (offset + length arr <=? length result)%nat
  then Some (firstn offset result ++ arr ++ skipn (offset + length arr) result)
  else None.

(** [concatFloat32Arrays], lines 13-22: the total length by [reduce], a
    zero-filled result of that length, when the engine grants it, then
    each array copied at the running [offset]. *)
Definition totalLength (arrays : list Float32Array) : nat :=
  fold_left (fun sum arr => (sum + length arr)%nat) arrays 0%nat.

Fixpoint concat_forEach (arrays : list Float32Array)
    (result : Float32Array) (offset : nat) : option Float32Array :=
  match arrays with
  | [] => Some result
  | arr :: rest =>
      match array_set result arr offset with
      | Some result' => concat_forEach rest result' (offset + length arr)
      | None => None
      end
  end.

Definition concatFloat32Arrays (grant : Z -> bool)
    (arrays : list Float32Array) : option Float32Array :=
  match Float32Array_ofLength grant (totalLength arrays) with
  | Some result => concat_forEach arrays result 0
  | None => None
  end.

(** [float32ToInt16], lines 25-34.  [quantizeSample] is the body of the
    loop: the clamp of line 30, the scaling of line 31, and the conversion
    of the store into the [Int16Array]. *)
Definition clamp (x : number) : number :=
  Math_max (of_Z (-1)) (Math_min (of_Z 1) x).

Definition quantizeSample (x : number) : Z :=
  let s := clamp x in
  ToInt16 (if lt s zero then mul s (of_Z 32768) else mul s (of_Z 32767)).

Fixpoint float32ToInt16_loop (steps i : nat) (buffer : Float32Array)
    (result : Int16Array) : Int16Array :=
  match steps with
  | O => result
  | S steps' =>
      match nth_error buffer i with
      | Some x =>
          float32ToInt16_loop steps' (S i) buffer
            (array_store result i (quantizeSample x))
      | None => result
      end
  end.

Definition float32ToInt16 (buffer : Float32Array) : Int16Array :=
  let l := length buffer in
  float32ToInt16_loop l 0 buffer (Int16Array_alloc l).

(** ** Exceptions *)

(** The message of a [NodeOperationError]: the text it was built from, or,
    when it was built from another error, the message of that error (whose
    wording is the engine's or the collaborator's). *)
Inductive Message : Type :=
| Text (text : string)
| Inherited.

(** The values thrown during a run.  [NodeOperationError message cause
    itemIndex] is the host's error class: it has a [context] object, whose
    [itemIndex] field is [itemIndex], and wraps [cause] when it was built
    from another error.  [ForeignError] is an error raised by a
    collaborator (the synthesis engine, the WAV library, the host); it has
    no [context] property. *)
#[warnings="-register-all"]
Inductive exn : Type :=
| RangeError
| TypeError
| ForeignError (tag : nat)
| NodeOperationError (message : Message) (cause : option exn)
    (itemIndex : option nat).

Inductive result (A : Type) : Type :=
| Ok (a : A)
| Throw (e : exn).

Arguments Ok {A} a.
Arguments Throw {A} e.

Definition bind {A B : Type} (c : result A) (k : A -> result B) : result B :=
  match c with
  | Ok a => k a
  | Throw e => Throw e
  end.

Notation "x <- c ;; k" := (bind c (fun x => k))
  (at level 61, c at next level, right associativity).
Notation "' pat <- c ;; k" := (bind c (fun x => match x with pat => k end))
  (at level 61, pat pattern, c at next level, right associativity).

(** A failed typed-array operation raises a RangeError. *)
Definition orRangeError {A : Type} (o : option A) : result A :=
  match o with
  | Some a => Ok a
  | None => Throw RangeError
  end.

(** ** Data of the node *)

(** What [tts.generate] resolves to. *)
Record RawAudio : Type := {
  audio : Float32Array;
  sampling_rate : number
}.

(** The arguments of [wav.fromScratch]. *)
Record WaveFile : Type := {
  numChannels : Z;
  sampleRate : number;
  bitDepth : string;
  samples : Int16Array
}.

Record BinaryData : Type := {
  data : jsstring;
  mimeType : string;
  fileName : string
}.

(** The [json] of an item is an object, held by reference: [ttsStatus] is
    written into it in place (line 151), and the item pushed at line 154
    shares the [json] object of an input item. *)
Inductive JsonValue : Type :=
| JString (s : jsstring)
| JOpaque (tag : nat).

Definition JsonObject := list (string * JsonValue).

Definition Heap := list JsonObject.

Record Item : Type := {
  json : nat;
  binary : option (list (string * BinaryData));
  error : option exn;
  pairedItem : option nat
}.

(** [obj[key] = v]: an existing property keeps its place. *)
Fixpoint setProperty (obj : JsonObject) (key : string) (v : JsonValue)
  : JsonObject :=
  match obj with
  | [] => [(key, v)]
  | (k, w) :: rest =>
      if String.eqb k key then (k, v) :: rest
      else (k, w) :: setProperty rest key v
  end.

(** The object behind a reference is updated in place. *)
Fixpoint heap_update (hp : Heap) (ref : nat) (f : JsonObject -> JsonObject)
  : Heap :=
  match hp, ref with
  | [], _ => []
  | obj :: rest, O => f obj :: rest
  | obj :: rest, S r => obj :: heap_update rest r f
  end.

(** ** The host and the collaborators *)

(** The places where [execute] creates a [Float32Array]: the silence of
    line 113, the silence of line 122 after sentence [i], and the result
    of [concatFloat32Arrays] (line 15, called at line 130). *)
Inductive Allocation : Type :=
| SeedPause
| SentencePause (i : nat)
| FlattenedAudio.

(** [execute] runs against the host ([IExecuteFunctions]), the synthesis
    engine ([kokoro-js]) and the WAV library ([wavefile]); none of them is
    part of the repository.  A run is taken against a fixed [Host]: what
    each call of the run answers, a value or a thrown error.  The answers
    are those of one run: they do not depend on what the run has written
    into the items in the meantime, and the parameters have the types
    their declarations give them (strings and a number).

    - [getInputData k] is [this.getInputData(k)], the items of input [k].
    - [getNodeParameter_voice i], [getNodeParameter_pauseDuration i] and
      [getNodeParameter_text i] are [this.getNodeParameter(name, i)].
    - [from_pretrained] is the load of the model.
    - [generate itemIndex i sentence voice] is what the engine answers to
      the call made for sentence [i] of item [itemIndex]; the engine is
      free to answer two calls with the same sentence differently.
    - [wavToBase64 w] is [fromScratch] with the fields of [w], then
      [toBuffer] and the base64 encoding of the bytes.
    - [allocates itemIndex place n] is whether the engine grants the
      [Float32Array] of [n] elements requested at [place] during the
      processing of item [itemIndex]; the engine is free to grant a
      length at one place and to refuse it at another. *)
Record Host : Type := {
  allocates : nat -> Allocation -> Z -> bool;
  getInputData : nat -> result (list Item);
  getNodeParameter_voice : nat -> result jsstring;
  getNodeParameter_pauseDuration : nat -> result number;
  getNodeParameter_text : nat -> result jsstring;
  continueOnFail : bool;
  from_pretrained : result unit;
  generate : nat -> nat -> jsstring -> jsstring -> result RawAudio;
  wavToBase64 : WaveFile -> result jsstring
}.

(** ** [execute] *)

(** Lines 113 and 122: [new Float32Array(samplingRate * pauseDuration)],
    the silence between sentences. *)
Definition silence (grant : Z -> bool) (samplingRate pauseDuration : number)
  : option Float32Array :=
  Float32Array_new grant (mul samplingRate pauseDuration).

(** Line 106: [text.split('\n').filter((sentence) => sentence.trim() !== '')]. *)
Definition segment (text : jsstring) : list jsstring :=
  filter (fun sentence => negb (JsString.eqb (trim sentence) [])) (split text).

Section Execute.

Variable h : Host.
Variable voice : jsstring.
Variable pauseDuration : number.

(** Lines 116-127, from sentence [i] on: [sentences] are the sentences
    still to process. *)
Fixpoint sentenceLoop (itemIndex i : nat) (sentences : list jsstring)
    (samplingRate : number) (audioChunks : list Float32Array)
  : result (number * list Float32Array) :=
  match sentences with
  | [] => Ok (samplingRate, audioChunks)
  | sentence :: rest =>
      rawAudio <- generate h itemIndex i sentence voice ;;
      let samplingRate := sampling_rate rawAudio in
      pauseSamples <-
        orRangeError
          (silence (allocates h itemIndex (SentencePause i))
             samplingRate pauseDuration) ;;
      sentenceLoop itemIndex (S i) rest samplingRate
        (audioChunks ++ [audio rawAudio; pauseSamples])
  end.

(** Lines 105-130: the samples of an item and the sampling rate they
    are tagged with. *)
Definition assemble (itemIndex : nat) (text : jsstring)
  : result (Float32Array * number) :=
  let sentences := segment text in
  let samplingRate := of_Z 22050 in
  _ <- orRangeError
         (silence (allocates h itemIndex SeedPause)
            samplingRate pauseDuration) ;;
  '(samplingRate, audioChunks) <-
    sentenceLoop itemIndex 0 sentences samplingRate [] ;;
  flattenedAudio <-
    orRangeError
      (concatFloat32Arrays (allocates h itemIndex FlattenedAudio)
         audioChunks) ;;
  Ok (flattenedAudio, samplingRate).

(** Lines 133-137: the WAV file built from the assembled samples. *)
Definition makeWav (flattenedAudio : Float32Array) (samplingRate : number)
  : WaveFile :=
  let int16Samples := float32ToInt16 flattenedAudio in
  {| numChannels := 1; sampleRate := samplingRate; bitDepth := "16";
     samples := int16Samples |}.

(** Lines 99-148, up to the value assigned to [items[itemIndex].binary]. *)
Definition synthesizeItem (itemIndex : nat) : result BinaryData :=
  text <- getNodeParameter_text h itemIndex ;;
  if negb (truthy text)
  then Throw (NodeOperationError (Text "No text provided") None
                (Some itemIndex))
  else
    '(flattenedAudio, samplingRate) <- assemble itemIndex text ;;
    wavBuffer <- wavToBase64 h (makeWav flattenedAudio samplingRate) ;;
    Ok {| data := wavBuffer; mimeType := "audio/wav";
          fileName := "result.wav" |}.

(** Lines 142-151: the two assignments that end the [try] block. *)
Definition attachAudio (it : Item) (b : BinaryData) : Item :=
  {| json := json it; binary := Some [("audio"%string, b)];
     error := error it; pairedItem := pairedItem it |}.

Definition markSuccess (obj : JsonObject) : JsonObject :=
  setProperty obj "ttsStatus" (JString (lit "success")).

(** Lines 160-164: the error thrown when the host does not continue on
    failure: the error itself, its [context.itemIndex] set, when it has a
    [context]; otherwise a [NodeOperationError] built from it, which takes
    its message. *)
Definition rethrow (e : exn) (itemIndex : nat) : exn :=
  match e with
  | NodeOperationError message cause _ =>
      NodeOperationError message cause (Some itemIndex)
  | _ => NodeOperationError Inherited (Some e) (Some itemIndex)
  end.

(** Lines 154-158: the item pushed when the host continues on failure.
    [this.getInputData(itemIndex)[0].json] throws a TypeError when the
    array is empty. *)
Definition errorItem (e : exn) (itemIndex : nat) : result Item :=
  input <- getInputData h itemIndex ;;
  match input with
  | [] => Throw TypeError
  | first :: _ =>
      Ok {| json := json first; binary := None; error := Some e;
            pairedItem := Some itemIndex |}
  end.

(** The state of the loop of line 97. *)
Record LoopState : Type := {
  items : list Item;
  heap : Heap;
  itemIndex : nat
}.

Inductive Step : Type :=
| Continue (s : LoopState)
| Exit (items : list Item) (heap : Heap)
| Abort (e : exn).

(** One evaluation of the loop condition and, when it holds, of the
    loop body (lines 97-167). *)
Definition loopStep (s : LoopState) : Step :=
  let i := itemIndex s in
  match nth_error (items s) i with
  | None => Exit (items s) (heap s)
  | Some it =>
      match synthesizeItem i with
      | Ok b =>
          Continue
            {| items := array_store (items s) i (attachAudio it b);
               heap := heap_update (heap s) (json it) markSuccess;
               itemIndex := S i |}
      | Throw e =>
          if continueOnFail h then
            match errorItem e i with
            | Ok pushed =>
                Continue {| items := items s ++ [pushed];
                            heap := heap s;
                            itemIndex := S i |}
            | Throw e' => Abort e'
            end
          else Abort (rethrow e i)
      end
  end.

End Execute.

(** How a run ends: [execute] returns [[items]], or throws, or is still
    running after [fuel] iterations of the loop over the items. *)
Inductive Outcome : Type :=
| Returned (items : list Item) (heap : Heap)
| Thrown (e : exn)
| Running (s : LoopState).

Fixpoint runLoop (h : Host) (voice : jsstring) (pauseDuration : number)
    (fuel : nat) (s : LoopState) : Outcome :=
  match loopStep h voice pauseDuration s with
  | Exit its hp => Returned its hp
  | Abort e => Thrown e
  | Continue s' =>
      match fuel with
      | O => Running s'
      | S fuel' => runLoop h voice pauseDuration fuel' s'
      end
  end.

(** [execute], lines 75-170, on the heap [hp] of the [json] objects of the
    input items.  When the load of the model fails (lines 89-93), the
    error thrown is built from a text; the error of the load is handed
    over as an option named [error], which the error class does not read:
    it is not kept. *)
Definition execute (h : Host) (hp : Heap) (fuel : nat) : Outcome :=
  match getInputData h 0 with
  | Throw e => Thrown e
  | Ok items0 =>
      match getNodeParameter_voice h 0 with
      | Throw e => Thrown e
      | Ok voice =>
          match getNodeParameter_pauseDuration h 0 with
          | Throw e => Thrown e
          | Ok pauseDuration =>
              match from_pretrained h with
              | Throw _ =>
                  Thrown (NodeOperationError
                            (Text "Failed to load TTS model") None None)
              | Ok _ =>
                  runLoop h voice pauseDuration fuel
                    {| items := items0; heap := hp; itemIndex := 0 |}
              end
          end
      end
  end.

(** ** The value of a number and the rounding of the specification *)

(** The rational a finite number stands for: [m * 2^e], with its sign. *)
Definition toQ (x : number) : option Q :=
  match x with
  | S754_zero _ => Some (Qmake 0 1)
  | S754_finite s m e =>
      Some (match e with
            | Zneg k => Qmake (cond_Zopp s (Zpos m)) (Pos.pow 2 k)
            | _ => Qmake (cond_Zopp s (Zpos m * 2 ^ e)) 1
            end)
  | S754_infinity _ | S754_nan => None
  end.

(** The integral part of a rational: the fraction is dropped, toward zero. *)
Definition Qtruncate (q : Q) : Z := Z.quot (Qnum q) (Zpos (Qden q)).

(** The nearest integer to a rational; a half rounds up. *)
Definition Qround (q : Q) : Z := Qfloor (Qplus q (Qmake 1 2)).

(** The length of the silence as the specification has it:
    [round(sampling_rate * duration_seconds)], on the exact product. *)
Definition spec_silence_length (sampling_rate duration_seconds : number)
  : option Z :=
  match toQ sampling_rate, toQ duration_seconds with
  | Some r, Some d => Some (Qround (Qmult r d))
  | _, _ => None
  end.

(** The numbers that an element of a [Float32Array] can hold, among the
    53-digit numbers: the value [m * 2^e] is a multiple of the binary32
    unit in the last place of its binade, or of 2^-149 when subnormal,
    and is below 2^128.  Zeros, infinities and NaN are elements too. *)
Definition float32 (x : number) : bool :=
  match x with
  | S754_finite _ m e =>
      (Z.pos (digits2_pos m) =? 53)%Z
      && (Z.pos m mod 2 ^ Z.max 29 (-149 - e) =? 0)%Z
      && (e <=? 75)%Z
  | _ => true
  end.

(** A number that is not negative: zero, a positive number, or +infinity. *)
Definition nonNegative (x : number) : bool := SFleb zero x.

(** [lines.join('\n')], the inverse of [split]. *)
Fixpoint join (lines : list jsstring) : jsstring :=
  match lines with
  | [] => []
  | [l] => l
  | l :: rest => l ++ newline :: join rest
  end.

(** A string made of white space only (the empty string included). *)
Definition blank (s : jsstring) : bool := forallb isWhiteSpace s.

(** The state of the loop over the items after [n] iterations, or how the
    loop ended before. *)
Fixpoint iterate (h : Host) (voice : jsstring) (pauseDuration : number)
    (n : nat) (s : LoopState) : Step :=
  match n with
  | O => Continue s
  | S n' =>
      match loopStep h voice pauseDuration s with
      | Continue s' => iterate h voice pauseDuration n' s'
      | ended => ended
      end
  end.

(** The host [h] with other answers for the voice and the pause duration
    of each item. *)
Definition withParameters (h : Host) (voiceOf : nat -> result jsstring)
    (pauseOf : nat -> result number) : Host :=
  {| allocates := allocates h;
     getInputData := getInputData h;
     getNodeParameter_voice := voiceOf;
     getNodeParameter_pauseDuration := pauseOf;
     getNodeParameter_text := getNodeParameter_text h;
     continueOnFail := continueOnFail h;
     from_pretrained := from_pretrained h;
     generate := generate h;
     wavToBase64 := wavToBase64 h |}.

(** The error of line 102. *)
Definition noTextProvided (itemIndex : nat) : exn :=
  NodeOperationError (Text "No text provided") None (Some itemIndex).

(** The WAV file of a text without sentence. *)
Definition emptyWav : WaveFile :=
  {| numChannels := 1; sampleRate := of_Z 22050; bitDepth := "16";
     samples := [] |}.

(** ** Runs of the synthesis engine *)

(** The engine answers the calls made for [sentences], the sentences of
    item [itemIndex] from sentence [i] on, with [raws], in order. *)
Fixpoint answers (h : Host) (voice : jsstring) (itemIndex i : nat)
    (sentences : list jsstring) (raws : list RawAudio) : Prop :=
  match sentences, raws with
  | [], [] => True
  | sentence :: sentences', raw :: raws' =>
      generate h itemIndex i sentence voice = Ok raw
      /\ answers h voice itemIndex (S i) sentences' raws'
  | _, _ => False
  end.

(** The silence that follows sentence [i] of item [itemIndex],
    synthesized as [raw], is allocated, and has [g] samples: its length is
    computed from the sampling rate of [raw]. *)
Definition gapLength (h : Host) (pauseDuration : number) (itemIndex i : nat)
    (raw : RawAudio) (g : Z) : Prop :=
  ToIndex (mul (sampling_rate raw) pauseDuration) = Some g
  /\ silence (allocates h itemIndex (SentencePause i))
       (sampling_rate raw) pauseDuration
     = Some (repeat zero (Z.to_nat g)).

(** The silences that follow the sentences of item [itemIndex], from
    sentence [i] on, synthesized as [raws], are allocated, with the
    lengths [gaps], in order. *)
Fixpoint gapLengths (h : Host) (pauseDuration : number) (itemIndex i : nat)
    (raws : list RawAudio) (gaps : list Z) : Prop :=
  match raws, gaps with
  | [], [] => True
  | raw :: raws', g :: gaps' =>
      gapLength h pauseDuration itemIndex i raw g
      /\ gapLengths h pauseDuration itemIndex (S i) raws' gaps'
  | _, _ => False
  end.

(** The audio of each sentence followed by its silence. *)
Fixpoint interleave (raws : list RawAudio) (gaps : list Z)
  : list Float32Array :=
  match raws, gaps with
  | raw :: raws', g :: gaps' =>
      audio raw :: repeat zero (Z.to_nat g) :: interleave raws' gaps'
  | _, _ => []
  end.

(** The sampling rate reported by the last call, or [seed] when no call was
    made. *)
Definition lastRate (raws : list RawAudio) (seed : number) : number :=
  last (map sampling_rate raws) seed.

(** ** Example runs *)

Module Example.

Definition item (ref : nat) : Item :=
  {| json := ref; binary := None; error := None; pairedItem := None |}.

(** A stub engine answer: [n] samples of amplitude 0.5 at [rate] Hz. *)
Definition stub (n : nat) (rate : Z) : RawAudio :=
  {| audio := repeat (dyadic 1 (-1)) n; sampling_rate := of_Z rate |}.

(** A stub WAV encoder: the samples as 16-bit code units. *)
Definition encode (w : WaveFile) : result jsstring :=
  Ok (map (fun z => Z.to_N (z mod 65536)) (samples w)).

Definition helloWorld : jsstring := lit "Hello" ++ newline :: lit "World".

(** An engine that grants the arrays of at most 2^30 elements. *)
Definition grants (n : Z) : bool := (n <=? 1073741824)%Z.

(** One item, whose text is ["Hello\nWorld"]; the engine answers each
    sentence with 1000 samples at 22050 Hz; the pause is 0.5 s. *)
Definition endToEnd : Host :=
  {| allocates := fun _ _ => grants;
     getInputData := fun _ => Ok [item 0];
     getNodeParameter_voice := fun _ => Ok (lit "af_heart");
     getNodeParameter_pauseDuration := fun _ => Ok (dyadic 1 (-1));
     getNodeParameter_text := fun _ => Ok helloWorld;
     continueOnFail := false;
     from_pretrained := Ok tt;
     generate := fun _ _ _ _ => Ok (stub 1000 22050);
     wavToBase64 := encode |}.

(** One item of text ["a\nb"]; the engine answers the first sentence with
    3 samples at 8 Hz and the second with 2 samples at 4 Hz. *)
Definition twoRates : Host :=
  {| allocates := fun _ _ => grants;
     getInputData := fun _ => Ok [item 0];
     getNodeParameter_voice := fun _ => Ok (lit "af_heart");
     getNodeParameter_pauseDuration := fun _ => Ok (dyadic 1 (-1));
     getNodeParameter_text := fun _ => Ok [97; 10; 98]%N;
     continueOnFail := false;
     from_pretrained := Ok tt;
     generate := fun _ i _ _ =>
                   Ok (if Nat.eqb i 0 then stub 3 8 else stub 2 4);
     wavToBase64 := encode |}.

(** One item whose text is a single space. *)
Definition whitespaceOnly : Host :=
  {| allocates := fun _ _ => grants;
     getInputData := fun _ => Ok [item 0];
     getNodeParameter_voice := fun _ => Ok (lit "af_heart");
     getNodeParameter_pauseDuration := fun _ => Ok (dyadic 1 (-1));
     getNodeParameter_text := fun _ => Ok (lit " ");
     continueOnFail := true;
     from_pretrained := Ok tt;
     generate := fun _ _ _ _ => Ok (stub 3 8);
     wavToBase64 := encode |}.

(** One item of text ["a"], with a pause of -2^-20 s. *)
Definition negativePause : Host :=
  {| allocates := fun _ _ => grants;
     getInputData := fun _ => Ok [item 0];
     getNodeParameter_voice := fun _ => Ok (lit "af_heart");
     getNodeParameter_pauseDuration := fun _ => Ok (dyadic (-1) (-20));
     getNodeParameter_text := fun _ => Ok (lit "a");
     continueOnFail := false;
     from_pretrained := Ok tt;
     generate := fun _ _ _ _ => Ok (stub 3 8);
     wavToBase64 := encode |}.

(** Three items; the host continues on failure; the engine fails on the
    second item (index 1) and answers the others with 3 samples at 8 Hz;
    [getInputData k] is the three items for [k = 0] and item [k] alone
    otherwise; the text of every index is ["Hello"]. *)
Definition threeItems : Host :=
  {| allocates := fun _ _ => grants;
     getInputData := fun k =>
       Ok (if Nat.eqb k 0 then [item 0; item 1; item 2] else [item k]);
     getNodeParameter_voice := fun _ => Ok (lit "af_heart");
     getNodeParameter_pauseDuration := fun _ => Ok (dyadic 1 (-1));
     getNodeParameter_text := fun _ => Ok (lit "Hello");
     continueOnFail := true;
     from_pretrained := Ok tt;
     generate := fun itemIndex _ _ _ =>
       if Nat.eqb itemIndex 1 then Throw (ForeignError 7)
       else Ok (stub 3 8);
     wavToBase64 := encode |}.

Definition threeHeap : Heap :=
  [[("text"%string, JString (lit "one"))];
   [("text"%string, JString (lit "two"))];
   [("text"%string, JString (lit "three"))]].

(** The audio attached to the items of [threeItems] that succeed. *)
Definition helloAudio : BinaryData :=
  {| data := [16383; 16383; 16383; 0; 0; 0; 0]%N;
     mimeType := "audio/wav"; fileName := "result.wav" |}.

(** One item; the host continues on failure; no index has a text. *)
Definition alwaysFailing : Host :=
  {| allocates := fun _ _ => grants;
     getInputData := fun _ => Ok [item 0];
     getNodeParameter_voice := fun _ => Ok (lit "af_heart");
     getNodeParameter_pauseDuration := fun _ => Ok (dyadic 1 (-1));
     getNodeParameter_text := fun _ => Ok [];
     continueOnFail := true;
     from_pretrained := Ok tt;
     generate := fun _ _ _ _ => Ok (stub 3 8);
     wavToBase64 := encode |}.

End Example.

(** ** Further notions for the properties of the code *)

(** The offset at which [concatFloat32Arrays] copies its [k]-th array:
    the lengths of the arrays before it, added up. *)
Definition offsetOf (arrays : list Float32Array) (k : nat) : nat :=
  length (concat (firstn k arrays)).

(** The PCM samples of sentences synthesized as [raws]: for each one the
    quantized audio, then as many zeros as its silence is long. *)
Fixpoint pcmLayout (raws : list RawAudio) (gaps : list Z) : Int16Array :=
  match raws, gaps with
  | raw :: raws', g :: gaps' =>
      float32ToInt16 (audio raw) ++ repeat 0%Z (Z.to_nat g)
      ++ pcmLayout raws' gaps'
  | _, _ => []
  end.

(** [obj[key]], the value of a property, if the object has it. *)
Fixpoint getProperty (obj : JsonObject) (key : string) : option JsonValue :=
  match obj with
  | [] => None
  | (k, w) :: rest => if String.eqb k key then Some w else getProperty rest key
  end.

(** Whether the processing of the item at an index fails. *)
Definition fails (h : Host) (voice : jsstring) (pauseDuration : number)
    (i : nat) : bool :=
  match synthesizeItem h voice pauseDuration i with
  | Ok _ => false
  | Throw _ => true
  end.

(** The number of indices below [n] whose processing fails. *)
Definition failures (h : Host) (voice : jsstring) (pauseDuration : number)
    (n : nat) : nat :=
  length (filter (fails h voice pauseDuration) (seq 0 n)).

(** A pause that leaves no gap: zero, of either sign, or NaN. *)
Definition noPause (pauseDuration : number) : bool :=
  match pauseDuration with
  | S754_zero _ | S754_nan => true
  | _ => false
  end.

Module Scenario.

(** One item of text ["a\nb\nc"]; the engine answers the first sentence
    with 3 samples at 8 Hz and throws on the second. *)
Definition secondSentenceFails : Host :=
  {| allocates := fun _ _ => Example.grants;
     getInputData := fun _ => Ok [Example.item 0];
     getNodeParameter_voice := fun _ => Ok (lit "af_heart");
     getNodeParameter_pauseDuration := fun _ => Ok (dyadic 1 (-1));
     getNodeParameter_text := fun _ => Ok [97; 10; 98; 10; 99]%N;
     continueOnFail := false;
     from_pretrained := Ok tt;
     generate := fun _ i _ _ =>
                   if Nat.eqb i 1 then Throw (ForeignError 3)
                   else Ok (Example.stub 3 8);
     wavToBase64 := Example.encode |}.

(** The three items of [Example.threeItems], on a host that does not
    continue on failure. *)
Definition threeItemsFailFast : Host :=
  {| allocates := fun _ _ => Example.grants;
     getInputData := getInputData Example.threeItems;
     getNodeParameter_voice := getNodeParameter_voice Example.threeItems;
     getNodeParameter_pauseDuration :=
       getNodeParameter_pauseDuration Example.threeItems;
     getNodeParameter_text := getNodeParameter_text Example.threeItems;
     continueOnFail := false;
     from_pretrained := Ok tt;
     generate := generate Example.threeItems;
     wavToBase64 := Example.encode |}.

Definition threeInputItems : list Item :=
  [Example.item 0; Example.item 1; Example.item 2].

(** Three items on a host that continues on failure and has one input:
    [getInputData] has items at index 0 only; the engine fails on the
    first item (index 0) and answers the others with 3 samples at 8 Hz;
    the text of every index is ["Hello"]. *)
Definition firstItemFails : Host :=
  {| allocates := fun _ _ => Example.grants;
     getInputData := fun k => Ok (if Nat.eqb k 0 then threeInputItems else []);
     getNodeParameter_voice := fun _ => Ok (lit "af_heart");
     getNodeParameter_pauseDuration := fun _ => Ok (dyadic 1 (-1));
     getNodeParameter_text := fun _ => Ok (lit "Hello");
     continueOnFail := true;
     from_pretrained := Ok tt;
     generate := fun itemIndex _ _ _ =>
       if Nat.eqb itemIndex 0 then Throw (ForeignError 7)
       else Ok (Example.stub 3 8);
     wavToBase64 := Example.encode |}.

(** One item without text, on a host that continues on failure and has
    one input; no index has a text. *)
Definition noText : Host :=
  {| allocates := fun _ _ => Example.grants;
     getInputData := fun k => Ok (if Nat.eqb k 0 then [Example.item 0] else []);
     getNodeParameter_voice := fun _ => Ok (lit "af_heart");
     getNodeParameter_pauseDuration := fun _ => Ok (dyadic 1 (-1));
     getNodeParameter_text := fun _ => Ok [];
     continueOnFail := true;
     from_pretrained := Ok tt;
     generate := fun _ _ _ _ => Ok (Example.stub 3 8);
     wavToBase64 := Example.encode |}.

(** One item of text ["a"]; the engine answers with 3 samples at
    24000 Hz. *)
Definition negativePause24k : Host :=
  {| allocates := fun _ _ => Example.grants;
     getInputData := fun k => Ok (if Nat.eqb k 0 then [Example.item 0] else []);
     getNodeParameter_voice := fun _ => Ok (lit "af_heart");
     getNodeParameter_pauseDuration := fun _ => Ok (dyadic (-11) (-18));
     getNodeParameter_text := fun _ => Ok (lit "a");
     continueOnFail := false;
     from_pretrained := Ok tt;
     generate := fun _ _ _ _ => Ok (Example.stub 3 24000);
     wavToBase64 := Example.encode |}.

(** The three items of [Example.threeItems], on a host whose
    [getInputData] has items at index 0 only. *)
Definition singleInput : Host :=
  {| allocates := fun _ _ => Example.grants;
     getInputData := fun k => Ok (if Nat.eqb k 0 then threeInputItems else []);
     getNodeParameter_voice := getNodeParameter_voice Example.threeItems;
     getNodeParameter_pauseDuration :=
       getNodeParameter_pauseDuration Example.threeItems;
     getNodeParameter_text := getNodeParameter_text Example.threeItems;
     continueOnFail := true;
     from_pretrained := Ok tt;
     generate := generate Example.threeItems;
     wavToBase64 := Example.encode |}.

End Scenario.

(** * Properties *)

(** ** Numbers *)

Lemma one_repr : of_Z 1 = S754_finite false 4503599627370496 (-52).
Proof. vm_compute. reflexivity. Qed.

Lemma minus_one_repr : of_Z (-1) = S754_finite true 4503599627370496 (-52).
Proof. vm_compute. reflexivity. Qed.

Ltac sign_cases x H Hc :=
  rewrite one_repr, minus_one_repr;
  destruct x as [[|]|[|]| |[|] ?m ?e]; unfold SFcompare; cbv beta iota;
  intros H Hc; try (split; reflexivity);
  try (injection H as <-; now elim Hc); discriminate H.

(** A number at or above 1 is above -1, and a number at or below -1 is
    below 1. *)
Lemma above_one (x : number) (c : comparison) :
  SFcompare (of_Z 1) x = Some c -> c <> Gt ->
  SFcompare x (of_Z (-1)) = Some Gt /\ SFcompare (of_Z (-1)) x = Some Lt.
Proof. sign_cases x H Hc. Qed.

Lemma below_minus_one (x : number) (c : comparison) :
  SFcompare x (of_Z (-1)) = Some c -> c <> Gt ->
  SFcompare (of_Z 1) x = Some Gt /\ SFcompare x (of_Z 1) = Some Lt.
Proof. sign_cases x H Hc. Qed.

Lemma lt_true (x y : number) : lt x y = true <-> SFcompare x y = Some Lt.
Proof.
  unfold lt, SFltb. destruct (SFcompare x y) as [[| |]|]; split; congruence.
Qed.

Lemma compare_nan (x y : number) (c : comparison) :
  SFcompare x y = Some c -> isNaN x = false /\ isNaN y = false.
Proof.
  destruct x, y; unfold SFcompare; cbv beta iota; intros H;
    try discriminate H; split; reflexivity.
Qed.

Lemma SFcompare_antisym (x y : number) :
  SFcompare x y = option_map CompOpp (SFcompare y x).
Proof.
  destruct x as [sx|sx| |sx mx ex], y as [sy|sy| |sy my ey]; simpl;
    try reflexivity;
    try (destruct sx; reflexivity); try (destruct sy; reflexivity);
    try (destruct sx, sy; reflexivity).
  destruct sx, sy; try reflexivity; f_equal;
    rewrite (Z.compare_antisym ex ey); destruct (ex ?= ey)%Z; simpl;
    try reflexivity;
    change (PosDef.Pos.compare_cont Eq) with Pos.compare;
    rewrite (Pos.compare_antisym mx my);
    now rewrite ?CompOpp_involutive.
Qed.

Lemma clamp_above (x : number) : lt (of_Z 1) x = true -> clamp x = of_Z 1.
Proof.
  intros H. unfold clamp, Math_min. rewrite H.
  apply lt_true, compare_nan in H. destruct H as [_ ->].
  rewrite orb_false_r. rewrite one_repr, minus_one_repr. vm_compute. reflexivity.
Qed.

Lemma clamp_below (x : number) :
  lt x (of_Z (-1)) = true -> clamp x = of_Z (-1).
Proof.
  intros H. pose proof H as H'. apply lt_true in H'.
  destruct (below_minus_one x H') as [H1 H2]; [discriminate|].
  destruct (compare_nan _ _ H') as [Hn _].
  unfold clamp, Math_min. rewrite Hn, orb_false_r.
  unfold lt at 1 2, SFltb. rewrite H1, H2.
  rewrite one_repr at 1. cbv beta iota delta [isNaN].
  unfold Math_max. rewrite Hn, H, orb_false_r.
  unfold lt, SFltb. rewrite (SFcompare_antisym (of_Z (-1)) x), H'.
  rewrite minus_one_repr. reflexivity.
Qed.

Lemma clamp_inside (x : number) :
  isNaN x = false -> lt (of_Z 1) x = false -> lt x (of_Z (-1)) = false ->
  clamp x = x \/ (SFeqb x (of_Z (-1)) = true /\ clamp x = of_Z (-1)).
Proof.
  intros Hn H1 H2.
  assert (Hmin : Math_min (of_Z 1) x = x).
  { unfold Math_min. rewrite Hn, H1, orb_false_r.
    replace (isNaN (of_Z 1)) with false by (vm_compute; reflexivity).
    replace (isNegZero (of_Z 1)) with false by (vm_compute; reflexivity).
    now destruct (lt x (of_Z 1)). }
  unfold clamp. rewrite Hmin. unfold Math_max. rewrite Hn, H2, orb_false_r.
  replace (isNaN (of_Z (-1))) with false by (vm_compute; reflexivity).
  replace (isNegZero (of_Z (-1))) with false by (vm_compute; reflexivity).
  destruct (lt (of_Z (-1)) x) eqn:H3; [now left|right]. split; [|reflexivity].
  revert H2 H3. unfold lt, SFltb, SFeqb.
  rewrite (SFcompare_antisym (of_Z (-1)) x).
  destruct (SFcompare x (of_Z (-1))) as [[| |]|] eqn:C; simpl; try congruence.
  revert C Hn. clear. destruct x; try discriminate.
  all: rewrite minus_one_repr; unfold SFcompare; cbv beta iota; discriminate.
Qed.

(** [truncate] is the integral part of the value. *)
Lemma truncate_toQ (x : number) :
  truncate x = option_map Qtruncate (toQ x).
Proof.
  destruct x as [s|s| |s m e]; try reflexivity.
  unfold truncate, toQ, option_map, Qtruncate. f_equal.
  destruct e as [|p|k]; cbv beta iota delta [Qnum Qden].
  - rewrite Z.shiftl_0_r, Z.pow_0_r, Z.mul_1_r, Z.quot_1_r. reflexivity.
  - rewrite Z.quot_1_r, Z.shiftl_mul_pow2 by lia. reflexivity.
  - change (Z.shiftl (Z.pos m) (Z.neg k)) with (Z.shiftr (Z.pos m) (Z.pos k)).
    rewrite Z.shiftr_div_pow2 by lia. rewrite Pos2Z.inj_pow.
    assert (Hp : (0 < 2 ^ Z.pos k)%Z) by (apply Z.pow_pos_nonneg; lia).
    destruct s; unfold cond_Zopp.
    + rewrite Z.quot_opp_l by lia. rewrite Z.quot_div_nonneg by lia. reflexivity.
    + rewrite Z.quot_div_nonneg by lia. reflexivity.
Qed.

(** Rounding keeps the sign it is given. *)
Lemma binary_round_aux_sign (sx : bool) (mx ex : Z) (lx : location) :
  match binary_round_aux prec emax sx mx ex lx with
  | S754_zero s | S754_infinity s | S754_finite s _ _ => s = sx
  | S754_nan => True
  end.
Proof.
  unfold binary_round_aux.
  destruct (shr_fexp prec emax mx ex lx) as [mrs' e'].
  destruct (shr_fexp prec emax _ e' loc_Exact) as [mrs'' e''].
  destruct (shr_m mrs''); try exact I; try reflexivity.
  destruct (e'' <=? emax - prec)%Z; reflexivity.
Qed.

Lemma nonNegative_cases (x : number) :
  nonNegative x = true ->
  x = S754_infinity false \/ (exists s, x = S754_zero s)
  \/ (exists m e, x = S754_finite false m e).
Proof.
  destruct x as [s|[|]| |[|] m e]; unfold nonNegative, SFleb, SFcompare, zero;
    cbv beta iota; intros H; try discriminate H; eauto.
Qed.

(** The integral part of a product of non-negative numbers is not
    negative. *)
Lemma truncate_mul_nonneg (r d : number) (n : Z) :
  nonNegative r = true -> nonNegative d = true ->
  truncate (mul r d) = Some n -> (0 <= n)%Z.
Proof.
  intros Hr Hd.
  destruct (nonNegative_cases r Hr) as [->|[[sr ->]|(mr & er & ->)]];
    destruct (nonNegative_cases d Hd) as [->|[[sd ->]|(md & ed & ->)]];
    unfold mul, SFmul; cbv beta iota; unfold truncate;
    try discriminate; try (intros [= <-]; lia).
  pose proof (binary_round_aux_sign (xorb false false)
                (Z.pos (mr * md)) (er + ed) loc_Exact) as Hs.
  revert Hs.
  destruct (binary_round_aux prec emax (xorb false false) (Z.pos (mr * md))
              (er + ed) loc_Exact) as [s|s| |s m e];
    intros Hs; try discriminate; intros [= <-]; try lia.
  rewrite Hs. simpl xorb. unfold cond_Zopp. apply Z.shiftl_nonneg. lia.
Qed.

(** *** Products that are not rounded *)

Lemma digits2_pos_size (p : positive) : digits2_pos p = Pos.size p.
Proof. induction p as [p IH|p IH|]; simpl; congruence. Qed.

Lemma digits2_pos_log2 (p : positive) :
  Z.pos (digits2_pos p) = (Z.log2 (Z.pos p) + 1)%Z.
Proof.
  destruct p as [p|p|]; [| |reflexivity];
    cbn [digits2_pos Z.log2]; rewrite digits2_pos_size; lia.
Qed.

(** [digits2_pos p] is the number of binary digits of [p]. *)
Lemma digits2_pos_range (p : positive) :
  (2 ^ (Z.pos (digits2_pos p) - 1) <= Z.pos p < 2 ^ Z.pos (digits2_pos p))%Z.
Proof.
  rewrite digits2_pos_log2.
  replace (Z.log2 (Z.pos p) + 1 - 1)%Z with (Z.log2 (Z.pos p)) by lia.
  apply Z.log2_spec. lia.
Qed.

Lemma iter_pos_nat {A : Type} (f : A -> A) (p : positive) :
  forall x : A, iter_pos f p x = Nat.iter (Pos.to_nat p) f x.
Proof.
  induction p as [p IH|p IH|]; intros x; cbn [iter_pos].
  - rewrite !IH, Pos2Nat.inj_xI, Nat.iter_succ_r.
    replace (2 * Pos.to_nat p)%nat with (Pos.to_nat p + Pos.to_nat p)%nat by lia.
    now rewrite Nat.iter_add.
  - rewrite !IH, Pos2Nat.inj_xO.
    replace (2 * Pos.to_nat p)%nat with (Pos.to_nat p + Pos.to_nat p)%nat by lia.
    now rewrite Nat.iter_add.
  - reflexivity.
Qed.

(** Shifting out zeros loses nothing. *)
Lemma shr_zeros (k : nat) :
  forall P M : positive,
    Z.pos P = (Z.pos M * 2 ^ Z.of_nat k)%Z ->
    Nat.iter k shr_1 {| shr_m := Z.pos P; shr_r := false; shr_s := false |}
    = {| shr_m := Z.pos M; shr_r := false; shr_s := false |}.
Proof.
  induction k as [|k IH]; intros P M H.
  - rewrite Z.mul_1_r in H. injection H as ->. reflexivity.
  - rewrite Nat2Z.inj_succ, Z.pow_succ_r in H by lia.
    destruct P as [P|P|]; try lia.
    rewrite Nat.iter_succ_r. cbn [shr_1 orb]. apply IH. lia.
Qed.

Lemma binary_round_aux_exact (sx : bool) (P M : positive) (ex k : Z) :
  (0 <= k)%Z -> Z.pos P = (Z.pos M * 2 ^ k)%Z ->
  Z.pos (digits2_pos M) = 53%Z ->
  (-1074 <= ex + k <= 971)%Z ->
  binary_round_aux prec emax sx (Z.pos P) ex loc_Exact
  = S754_finite sx M (ex + k).
Proof.
  intros Hk HP HM He.
  assert (HdP : Zdigits2 (Z.pos P) = (53 + k)%Z).
  { cbn [Zdigits2]. rewrite digits2_pos_log2, HP.
    rewrite Z.log2_mul_pow2 by lia. rewrite digits2_pos_log2 in HM. lia. }
  assert (Hf1 : (fexp prec emax (Zdigits2 (Z.pos P) + ex) - ex = k)%Z).
  { rewrite HdP. unfold fexp, emin, prec, emax. lia. }
  assert (Hf2 : (fexp prec emax (Zdigits2 (Z.pos M) + (ex + k)) - (ex + k)
                 = 0)%Z).
  { cbn [Zdigits2]. rewrite HM. unfold fexp, emin, prec, emax. lia. }
  assert (Hshr : shr (shr_record_of_loc (Z.pos P) loc_Exact) ex k
                 = ({| shr_m := Z.pos M; shr_r := false; shr_s := false |},
                    (ex + k)%Z)).
  { unfold shr, shr_record_of_loc. destruct k as [|p|p]; [| |lia].
    - rewrite Z.mul_1_r in HP. injection HP as ->. now rewrite Z.add_0_r.
    - rewrite iter_pos_nat. f_equal. apply shr_zeros.
      now rewrite positive_nat_Z. }
  unfold binary_round_aux, shr_fexp. rewrite Hf1, Hshr.
  cbn [shr_m loc_of_shr_record round_nearest_even].
  rewrite Hf2. cbn [shr shr_record_of_loc shr_m].
  replace (ex + k <=? emax - prec)%Z with true; [reflexivity|].
  symmetry. apply Z.leb_le. unfold emax, prec. lia.
Qed.

(** A product whose significant digits fit in 53 bits is not rounded. *)
Lemma mul_exact (sx sy : bool) (mx my P0 : positive) (ex ey t : Z) :
  (0 <= t)%Z ->
  (Z.pos mx * Z.pos my = Z.pos P0 * 2 ^ t)%Z ->
  (53 - Z.pos (digits2_pos P0) <= t)%Z ->
  (Z.pos (digits2_pos P0) <= 53)%Z ->
  (-1074 <= ex + ey + t - (53 - Z.pos (digits2_pos P0)) <= 971)%Z ->
  exists M : positive,
    mul (S754_finite sx mx ex) (S754_finite sy my ey)
    = S754_finite (xorb sx sy) M
        (ex + ey + t - (53 - Z.pos (digits2_pos P0)))
    /\ Z.pos M = (Z.pos P0 * 2 ^ (53 - Z.pos (digits2_pos P0)))%Z.
Proof.
  intros Ht HP Hd Hd' He.
  set (d0 := Z.pos (digits2_pos P0)) in *.
  assert (Hpow : (0 < 2 ^ (53 - d0))%Z) by (apply Z.pow_pos_nonneg; lia).
  assert (HM : exists M, Z.pos M = (Z.pos P0 * 2 ^ (53 - d0))%Z).
  { exists (Z.to_pos (Z.pos P0 * 2 ^ (53 - d0))). rewrite Z2Pos.id; lia. }
  destruct HM as [M HM]. exists M. split; [|exact HM].
  unfold mul, SFmul.
  replace (ex + ey + t - (53 - d0))%Z with (ex + ey + (t - (53 - d0)))%Z by lia.
  apply binary_round_aux_exact.
  - lia.
  - rewrite Pos2Z.inj_mul, HP, HM, <- Z.mul_assoc, <- Z.pow_add_r by lia.
    f_equal. f_equal. lia.
  - rewrite digits2_pos_log2, HM, Z.log2_mul_pow2 by lia.
    unfold d0. rewrite digits2_pos_log2. lia.
  - lia.
Qed.

Lemma repr_32768 : of_Z 32768 = S754_finite false 4503599627370496 (-37).
Proof. vm_compute. reflexivity. Qed.

Lemma repr_32767 : of_Z 32767 = S754_finite false 9006924376834048 (-38).
Proof. vm_compute. reflexivity. Qed.

Lemma compare_cont_Eq (a b : positive) :
  PosDef.Pos.compare_cont Eq a b = (a ?= b)%positive.
Proof. reflexivity. Qed.

(** What [float32] says of a finite number. *)
Lemma float32_finite (s : bool) (m : positive) (e : Z) :
  float32 (S754_finite s m e) = true ->
  Z.pos (digits2_pos m) = 53%Z
  /\ (exists a : positive, Z.pos m = Z.pos a * 2 ^ 29)%Z
  /\ (-201 <= e <= 75)%Z.
Proof.
  unfold float32. rewrite !andb_true_iff, !Z.eqb_eq, Z.leb_le.
  intros [[Hd Hm] He]. split; [exact Hd|].
  pose proof (digits2_pos_range m) as Hr. rewrite Hd in Hr.
  change (2 ^ (53 - 1))%Z with 4503599627370496%Z in Hr.
  change (2 ^ 53)%Z with 9007199254740992%Z in Hr.
  set (j := Z.max 29 (-149 - e)) in *.
  assert (Hj : (29 <= j)%Z) by (unfold j; lia).
  assert (Hpj : (0 < 2 ^ j)%Z) by (apply Z.pow_pos_nonneg; lia).
  apply Z.mod_divide in Hm; [|lia]. destruct Hm as [c Hc].
  assert (Hc0 : (0 < c)%Z) by nia.
  assert (Hsplit : (2 ^ j = 2 ^ (j - 29) * 2 ^ 29)%Z).
  { rewrite <- Z.pow_add_r by lia. f_equal. lia. }
  assert (Hp' : (0 < 2 ^ (j - 29))%Z) by (apply Z.pow_pos_nonneg; lia).
  split.
  - exists (Z.to_pos (c * 2 ^ (j - 29))). rewrite Z2Pos.id by nia.
    rewrite Hc, Hsplit. ring.
  - split; [|exact He].
    assert (Hlt : (2 ^ j < 2 ^ 53)%Z).
    { change (2 ^ 53)%Z with 9007199254740992%Z. nia. }
    apply Z.pow_lt_mono_r_iff in Hlt; [|lia|lia]. unfold j in Hlt. lia.
Qed.

(** A number of 53 digits that is below 1 in magnitude has an exponent of
    -53 at most. *)
Lemma below_one_exponent (m : positive) (e : Z) :
  Z.pos (digits2_pos m) = 53%Z ->
  lt (S754_finite false m e) (of_Z 1) = true -> (e <= -53)%Z.
Proof.
  intros Hd H. apply lt_true in H. rewrite one_repr in H.
  unfold SFcompare in H. cbv beta iota in H.
  pose proof (digits2_pos_range m) as Hr. rewrite Hd in Hr.
  change (2 ^ (53 - 1))%Z with 4503599627370496%Z in Hr.
  destruct (Z.compare_spec e (-52)) as [He|He|He]; [|lia|discriminate H].
  rewrite compare_cont_Eq in H. injection H as H.
  apply Pos.compare_lt_iff, Pos2Z.pos_lt_pos in H. lia.
Qed.

Lemma above_minus_one_exponent (m : positive) (e : Z) :
  Z.pos (digits2_pos m) = 53%Z ->
  lt (of_Z (-1)) (S754_finite true m e) = true -> (e <= -53)%Z.
Proof.
  intros Hd H. apply lt_true in H. rewrite minus_one_repr in H.
  unfold SFcompare in H. cbv beta iota in H.
  pose proof (digits2_pos_range m) as Hr. rewrite Hd in Hr.
  change (2 ^ (53 - 1))%Z with 4503599627370496%Z in Hr.
  destruct (Z.compare_spec (-52) e) as [He|He|He]; [|discriminate H|lia].
  rewrite compare_cont_Eq in H. injection H as H.
  destruct (Pos.compare_spec 4503599627370496 m) as [Hc|Hc|Hc];
    try discriminate H.
  apply Pos2Z.pos_lt_pos in Hc. lia.
Qed.

(** The integral part of [m * K / 2^k] when [m * K = P * 2^u] and the
    result keeps [k - u] fractional digits. *)
Lemma shift_div (P : positive) (a u : Z) :
  (0 <= a)%Z -> (0 <= u)%Z ->
  (Z.shiftl (Z.pos P * 2 ^ a) (- (u + a)) = Z.pos P / 2 ^ u)%Z.
Proof.
  intros Ha Hu. rewrite Z.shiftl_opp_r, Z.shiftr_div_pow2 by lia.
  rewrite Z.pow_add_r by lia.
  apply Z.div_mul_cancel_r;
    apply Z.neq_sym, Z.lt_neq, Z.pow_pos_nonneg; lia.
Qed.

Lemma lt_zero_sign (s : bool) (m : positive) (e : Z) :
  lt (S754_finite s m e) zero = s.
Proof. destruct s; reflexivity. Qed.

(** Between -1 and 1 the clamp changes nothing. *)
Lemma clamp_strictly_inside (x : number) :
  lt (of_Z (-1)) x = true -> lt x (of_Z 1) = true -> clamp x = x.
Proof.
  intros Hlo Hhi. apply lt_true in Hlo, Hhi.
  destruct (compare_nan _ _ Hhi) as [Hn _].
  assert (H1 : lt (of_Z 1) x = false).
  { unfold lt, SFltb. now rewrite (SFcompare_antisym (of_Z 1) x), Hhi. }
  assert (H2 : lt x (of_Z (-1)) = false).
  { unfold lt, SFltb. now rewrite (SFcompare_antisym x (of_Z (-1))), Hlo. }
  destruct (clamp_inside x Hn H1 H2) as [H|[Heq _]]; [exact H|].
  unfold SFeqb in Heq. rewrite (SFcompare_antisym x (of_Z (-1))), Hlo in Heq.
  discriminate Heq.
Qed.

Lemma quot_signed (s : bool) (A B : Z) :
  (0 <= A)%Z -> (0 < B)%Z ->
  Z.quot (cond_Zopp s A) B = cond_Zopp s (A / B)%Z.
Proof.
  intros HA HB. destruct s; unfold cond_Zopp.
  - rewrite Z.quot_opp_l, Z.quot_div_nonneg by lia. reflexivity.
  - now rewrite Z.quot_div_nonneg by lia.
Qed.

Lemma div_scaled (p u a : Z) :
  (0 <= a <= u)%Z -> (p * 2 ^ a / 2 ^ u = p / 2 ^ (u - a))%Z.
Proof.
  intros H. replace u with ((u - a) + a)%Z at 1 by lia.
  rewrite Z.pow_add_r by lia.
  apply Z.div_mul_cancel_r;
    apply Z.neq_sym, Z.lt_neq, Z.pow_pos_nonneg; lia.
Qed.


(** ** Typed-array helpers *)

Lemma totalLength_from (arrays : list Float32Array) (n : nat) :
  fold_left (fun sum arr => (sum + length arr)%nat) arrays n
  = (n + length (concat arrays))%nat.
Proof.
  revert n; induction arrays as [|arr rest IH]; intros n; simpl.
  - lia.
  - rewrite IH, length_app. lia.
Qed.

Lemma totalLength_concat (arrays : list Float32Array) :
  totalLength arrays = length (concat arrays).
Proof. unfold totalLength. now rewrite totalLength_from. Qed.

(** The loop of [concatFloat32Arrays] keeps what is already copied and
    fills the rest of the result with the arrays still to come. *)
Lemma concat_forEach_fill (arrays : list Float32Array) :
  forall (done tail : Float32Array),
    length tail = length (concat arrays) ->
    concat_forEach arrays (done ++ tail) (length done)
    = Some (done ++ concat arrays).
Proof.
  induction arrays as [|arr rest IH]; intros done tail Htail; simpl in *.
  - destruct tail; [reflexivity | discriminate].
  - rewrite length_app in Htail.
    unfold array_set.
    assert (Hfit : (length done + length arr <=? length (done ++ tail))%nat = true).
    { apply Nat.leb_le. rewrite length_app. lia. }
    rewrite Hfit.
    rewrite firstn_app, firstn_all, Nat.sub_diag, firstn_O, app_nil_r.
    rewrite skipn_app, skipn_all2 by lia. simpl.
    replace (length done + length arr - length done)%nat with (length arr) by lia.
    specialize (IH (done ++ arr) (skipn (length arr) tail)).
    rewrite length_app in IH. rewrite <- app_assoc in IH.
    rewrite IH.
    + now rewrite <- app_assoc.
    + rewrite length_skipn. lia.
Qed.

(** [concatFloat32Arrays] returns the arrays laid end to end when the
    engine grants an array of their total length, and fails otherwise;
    the copies never fail. *)
Lemma concatFloat32Arrays_concat (grant : Z -> bool)
    (arrays : list Float32Array) :
  concatFloat32Arrays grant arrays
  = if granted grant (Z.of_nat (length (concat arrays)))
    then Some (concat arrays) else None.
Proof.
  unfold concatFloat32Arrays, Float32Array_ofLength, Float32Array_alloc.
  rewrite totalLength_concat.
  destruct (granted grant (Z.of_nat (length (concat arrays))));
    [|reflexivity].
  apply (concat_forEach_fill arrays []
           (repeat zero (length (concat arrays)))).
  apply repeat_length.
Qed.

Lemma concatFloat32Arrays_granted (grant : Z -> bool)
    (arrays : list Float32Array) :
  concatFloat32Arrays grant arrays <> None ->
  concatFloat32Arrays grant arrays = Some (concat arrays).
Proof.
  rewrite concatFloat32Arrays_concat.
  destruct (granted grant (Z.of_nat (length (concat arrays))));
    [reflexivity|intros H; now elim H].
Qed.


Lemma array_store_app {A : Type} (done : list A) (old v : A) (rest : list A) :
  array_store (done ++ old :: rest) (length done) v = done ++ v :: rest.
Proof. induction done as [|x done IH]; simpl; [reflexivity | now rewrite IH]. Qed.

Lemma nth_error_middle {A : Type} (done : list A) (x : A) (rest : list A) :
  nth_error (done ++ x :: rest) (length done) = Some x.
Proof. induction done; simpl; auto. Qed.

(** After [i] iterations the first [i] cells of the result hold the
    quantized samples and the others are still zero. *)
Lemma float32ToInt16_loop_map (todo : Float32Array) :
  forall (done : Float32Array),
    float32ToInt16_loop (length todo) (length done) (done ++ todo)
      (map quantizeSample done ++ Int16Array_alloc (length todo))
    = map quantizeSample (done ++ todo).
Proof.
  induction todo as [|x todo IH]; intros done; simpl.
  - now rewrite !app_nil_r.
  - rewrite nth_error_middle.
    replace (length done) with (length (map quantizeSample done)) at 2
      by apply length_map.
    unfold Int16Array_alloc at 1. simpl repeat.
    rewrite array_store_app.
    specialize (IH (done ++ [x])).
    rewrite length_app, Nat.add_1_r, <- app_assoc in IH. simpl in IH.
    rewrite map_app, <- app_assoc in IH. simpl in IH.
    exact IH.
Qed.

Lemma float32ToInt16_map (buffer : Float32Array) :
  float32ToInt16 buffer = map quantizeSample buffer.
Proof. exact (float32ToInt16_loop_map buffer []). Qed.

(** ** Quantization (C3) *)

(** The store into an [Int16Array] drops the fraction of a number whose
    integral part is a 16-bit integer. *)
Lemma ToInt16_in_range (x : number) (n : Z) :
  truncate x = Some n -> (-32768 <= n <= 32767)%Z -> ToInt16 x = n.
Proof.
  intros Ht Hn. unfold ToInt16. rewrite Ht.
  rewrite Z.mod_small by lia. lia.
Qed.

(** A sample strictly between -1 and 0 is multiplied by 32768 without
    rounding, and the fraction of the product is dropped. *)
Lemma quantize_negative (x : number) (q : Q) :
  float32 x = true ->
  lt (of_Z (-1)) x = true -> lt x zero = true ->
  toQ x = Some q ->
  quantizeSample x = Qtruncate (Qmult q (inject_Z 32768))
  /\ (-32768 < quantizeSample x <= 0)%Z.
Proof.
  intros Hf Hlo Hneg Hq.
  assert (Hhi : lt x (of_Z 1) = true).
  { apply lt_true. apply lt_true in Hneg. revert Hneg. rewrite one_repr.
    destruct x as [[|]|[|]| |[|] m e]; unfold SFcompare, zero; cbv beta iota;
      intros H; try discriminate H; reflexivity. }
  unfold quantizeSample. rewrite (clamp_strictly_inside x Hlo Hhi), Hneg.
  destruct x as [[|]|[|]| |s m e]; try discriminate Hneg; try discriminate Hlo.
  rewrite lt_zero_sign in Hneg. subst s.
  destruct (float32_finite _ _ _ Hf) as (Hd & _ & He).
  pose proof (above_minus_one_exponent m e Hd Hlo) as He'.
  pose proof (digits2_pos_range m) as Hr. rewrite Hd in Hr.
  change (2 ^ 53)%Z with 9007199254740992%Z in Hr.
  rewrite repr_32768.
  change (2 ^ (53 - 1))%Z with 4503599627370496%Z in Hr.
  destruct (@mul_exact true false m 4503599627370496 m e (-37) 52)
    as (M & Hmul & HM); try (rewrite ?Hd; lia).
  rewrite Hmul. rewrite Hd in HM |- *.
  change (2 ^ (53 - 53))%Z with 1%Z in HM.
  rewrite Z.mul_1_r in HM. injection HM as ->.
  assert (Hu : (0 <= - e - 53)%Z) by lia.
  assert (Hp : (0 < 2 ^ (- e - 15))%Z) by (apply Z.pow_pos_nonneg; lia).
  assert (Htrunc : truncate (S754_finite (xorb true false) m
                               (e + -37 + 52 - (53 - 53)))
                   = Some (- (Z.pos m / 2 ^ (- e - 15)))%Z).
  { unfold truncate. cbn [xorb cond_Zopp]. f_equal. f_equal.
    replace (e + -37 + 52 - (53 - 53))%Z with (- (- e - 15))%Z by lia.
    rewrite Z.shiftl_opp_r, Z.shiftr_div_pow2 by lia. reflexivity. }
  assert (Hsmall : (0 <= Z.pos m / 2 ^ (- e - 15) < 32768)%Z).
  { split; [apply Z.div_pos; lia|].
    apply Z.div_lt_upper_bound; [lia|].
    assert (Hge : (2 ^ 38 <= 2 ^ (- e - 15))%Z)
      by (apply Z.pow_le_mono_r; lia).
    change (2 ^ 38)%Z with 274877906944%Z in Hge. nia. }
  rewrite (ToInt16_in_range _ Htrunc) by lia.
  split; [|lia].
  destruct e as [|p|k]; try lia.
  cbn [toQ] in Hq. injection Hq as <-.
  unfold Qtruncate, Qmult, inject_Z. cbn [Qnum Qden].
  rewrite Pos.mul_1_r, Pos2Z.inj_pow.
  replace (Z.neg m * 32768)%Z with (cond_Zopp true (Z.pos m * 2 ^ 15))%Z
    by (change (2 ^ 15)%Z with 32768%Z; unfold cond_Zopp; lia).
  rewrite quot_signed by (try apply Z.pow_pos_nonneg; lia).
  rewrite div_scaled by lia.
  replace (- Z.neg k - 15)%Z with (Z.pos k - 15)%Z by lia. reflexivity.
Qed.

(** A sample from 0 to 1, 1 excluded, is multiplied by 32767 without
    rounding, and the fraction of the product is dropped. *)
Lemma quantize_nonnegative (x : number) (q : Q) :
  float32 x = true ->
  lt x (of_Z 1) = true -> lt x zero = false ->
  toQ x = Some q ->
  quantizeSample x = Qtruncate (Qmult q (inject_Z 32767))
  /\ (0 <= quantizeSample x < 32767)%Z.
Proof.
  intros Hf Hhi Hpos Hq.
  destruct x as [[|]|[|]| |[|] m e];
    try discriminate Hhi; try discriminate Hpos; try discriminate Hq.
  - injection Hq as <-. vm_compute. repeat split; discriminate.
  - injection Hq as <-. vm_compute. repeat split; discriminate.
  - assert (Hlo : lt (of_Z (-1)) (S754_finite false m e) = true)
      by (rewrite minus_one_repr; reflexivity).
    unfold quantizeSample. rewrite (clamp_strictly_inside _ Hlo Hhi), Hpos.
    destruct (float32_finite _ _ _ Hf) as (Hd & [a Ha] & He).
    pose proof (below_one_exponent m e Hd Hhi) as He'.
    pose proof (digits2_pos_range m) as Hr. rewrite Hd in Hr.
    change (2 ^ 53)%Z with 9007199254740992%Z in Hr.
    change (2 ^ (53 - 1))%Z with 4503599627370496%Z in Hr.
    change (2 ^ 29)%Z with 536870912%Z in Ha.
    assert (Ha24 : (Z.pos a < 16777216)%Z) by lia.
    set (P0 := (a * 32767)%positive).
    assert (HP0 : Z.pos P0 = (Z.pos a * 32767)%Z) by (unfold P0; lia).
    pose proof (digits2_pos_range P0) as Hr0.
    set (d0 := Z.pos (digits2_pos P0)) in *.
    assert (Hd0 : (1 <= d0 <= 39)%Z).
    { split; [unfold d0; lia|].
      assert (Hlt : (2 ^ (d0 - 1) < 2 ^ 39)%Z).
      { change (2 ^ 39)%Z with 549755813888%Z. lia. }
      apply Z.pow_lt_mono_r_iff in Hlt; lia. }
    rewrite repr_32767.
    destruct (@mul_exact false false m 9006924376834048 P0 e (-38) 67)
      as (M & Hmul & HM); fold d0; try lia.
    fold d0 in Hmul, HM. rewrite Hmul.
    assert (Htrunc : truncate (S754_finite (xorb false false) M
                                 (e + -38 + 67 - (53 - d0)))
                     = Some (Z.pos P0 / 2 ^ (- e - 29))%Z).
    { unfold truncate. cbn [xorb cond_Zopp]. f_equal. rewrite HM.
      replace (e + -38 + 67 - (53 - d0))%Z
        with (- ((- e - 29) + (53 - d0)))%Z by lia.
      apply shift_div; lia. }
    assert (Hp : (0 < 2 ^ (- e - 29))%Z) by (apply Z.pow_pos_nonneg; lia).
    assert (Hsmall : (0 <= Z.pos P0 / 2 ^ (- e - 29) < 32767)%Z).
    { split; [apply Z.div_pos; lia|].
      apply Z.div_lt_upper_bound; [lia|].
      assert (Hge : (2 ^ 24 <= 2 ^ (- e - 29))%Z)
        by (apply Z.pow_le_mono_r; lia).
      change (2 ^ 24)%Z with 16777216%Z in Hge. nia. }
    rewrite (ToInt16_in_range _ Htrunc) by lia.
    split; [|lia].
    destruct e as [|p|k]; try lia.
    cbn [toQ] in Hq. injection Hq as <-.
    unfold Qtruncate, Qmult, inject_Z. cbn [Qnum Qden cond_Zopp].
    rewrite Pos.mul_1_r, Pos2Z.inj_pow.
    rewrite Z.quot_div_nonneg by (try apply Z.pow_pos_nonneg; lia).
    replace (Z.pos m * 32767)%Z with (Z.pos P0 * 2 ^ 29)%Z
      by (change (2 ^ 29)%Z with 536870912%Z; lia).
    rewrite div_scaled by lia.
    replace (- Z.neg k - 29)%Z with (Z.pos k - 29)%Z by lia. reflexivity.
Qed.

Lemma compare_one_eq (x : number) :
  SFcompare (of_Z 1) x = Some Eq -> x = of_Z 1.
Proof.
  rewrite one_repr.
  destruct x as [[|]|[|]| |[|] m e]; unfold SFcompare; cbv beta iota;
    intros H; try discriminate H.
  destruct (Z.compare_spec (-52) e) as [He|He|He]; try discriminate H.
  rewrite compare_cont_Eq in H. injection H as H.
  apply Pos.compare_eq in H. now subst.
Qed.

Lemma compare_minus_one_eq (x : number) :
  SFcompare x (of_Z (-1)) = Some Eq -> x = of_Z (-1).
Proof.
  rewrite minus_one_repr.
  destruct x as [[|]|[|]| |[|] m e]; unfold SFcompare; cbv beta iota;
    intros H; try discriminate H.
  destruct (Z.compare_spec e (-52)) as [He|He|He]; try discriminate H.
  rewrite compare_cont_Eq in H. injection H as H.
  destruct (Pos.compare_spec m 4503599627370496) as [Hc|Hc|Hc];
    try discriminate H.
  now subst.
Qed.

(** A sample of 1 or more is quantized to 32767, a sample of -1 or less
    to -32768. *)
Lemma quantize_high (x : number) :
  SFleb (of_Z 1) x = true -> quantizeSample x = 32767%Z.
Proof.
  unfold SFleb. intros H.
  destruct (SFcompare (of_Z 1) x) as [[| |]|] eqn:C; try discriminate H.
  - rewrite (compare_one_eq x C). vm_compute. reflexivity.
  - unfold quantizeSample. rewrite (clamp_above x (proj2 (lt_true _ _) C)).
    vm_compute. reflexivity.
Qed.

Lemma quantize_low (x : number) :
  SFleb x (of_Z (-1)) = true -> quantizeSample x = (-32768)%Z.
Proof.
  unfold SFleb. intros H.
  destruct (SFcompare x (of_Z (-1))) as [[| |]|] eqn:C; try discriminate H.
  - rewrite (compare_minus_one_eq x C). vm_compute. reflexivity.
  - unfold quantizeSample. rewrite (clamp_below x (proj2 (lt_true _ _) C)).
    vm_compute. reflexivity.
Qed.

(** C3. [float32ToInt16] maps every sample [x] of its input, in order, to
    a 16-bit integer: [x] is clamped to [-1, 1] first (a sample above 1
    becomes 1, a sample below -1 becomes -1, a sample in between is kept);
    the clamped value is multiplied by 32768 when it is negative and by
    32767 otherwise; the store into the [Int16Array] drops the fraction of
    the product.  On the samples a [Float32Array] holds the products are
    exact: a sample of 1 or more gives 32767, a sample of -1 or less
    gives -32768, a sample [q] between -1 and 0 gives the integral part of
    [q * 32768] and a sample [q] from 0 to 1 the integral part of
    [q * 32767].  In particular 1.0, -1.0, 2.0, -2.0 and 0.0 are mapped to
    32767, -32768, 32767, -32768 and 0. *)
Theorem float32ToInt16_quantizes :
  (forall buffer : Float32Array,
      float32ToInt16 buffer
      = map (fun x =>
               let s := clamp x in
               ToInt16 (if lt s zero then mul s (of_Z 32768)
                        else mul s (of_Z 32767)))
          buffer)
  /\ (forall x, lt (of_Z 1) x = true -> clamp x = of_Z 1)
  /\ (forall x, lt x (of_Z (-1)) = true -> clamp x = of_Z (-1))
  /\ (forall x, lt (of_Z (-1)) x = true -> lt x (of_Z 1) = true ->
                clamp x = x)
  /\ (forall x, SFleb (of_Z 1) x = true ->
                nth_error (float32ToInt16 [x]) 0 = Some 32767%Z)
  /\ (forall x, SFleb x (of_Z (-1)) = true ->
                nth_error (float32ToInt16 [x]) 0 = Some (-32768)%Z)
  /\ (forall x q, float32 x = true ->
                  lt (of_Z (-1)) x = true -> lt x zero = true ->
                  toQ x = Some q ->
                  nth_error (float32ToInt16 [x]) 0
                  = Some (Qtruncate (Qmult q (inject_Z 32768))))
  /\ (forall x q, float32 x = true ->
                  lt x (of_Z 1) = true -> lt x zero = false ->
                  toQ x = Some q ->
                  nth_error (float32ToInt16 [x]) 0
                  = Some (Qtruncate (Qmult q (inject_Z 32767))))
  /\ float32ToInt16 [of_Z 1] = [32767%Z]
  /\ float32ToInt16 [of_Z (-1)] = [(-32768)%Z]
  /\ float32ToInt16 [of_Z 2] = [32767%Z]
  /\ float32ToInt16 [of_Z (-2)] = [(-32768)%Z]
  /\ float32ToInt16 [zero] = [0%Z].
Proof.
  split; [exact float32ToInt16_map|].
  split; [exact clamp_above|].
  split; [exact clamp_below|].
  split; [exact clamp_strictly_inside|].
  split; [intros x H; rewrite float32ToInt16_map; cbn [map nth_error];
          now rewrite (quantize_high x H)|].
  split; [intros x H; rewrite float32ToInt16_map; cbn [map nth_error];
          now rewrite (quantize_low x H)|].
  split; [intros x q Hf Hlo Hneg Hq; rewrite float32ToInt16_map;
          cbn [map nth_error];
          now rewrite (proj1 (quantize_negative x Hf Hlo Hneg Hq))|].
  split; [intros x q Hf Hhi Hpos Hq; rewrite float32ToInt16_map;
          cbn [map nth_error];
          now rewrite (proj1 (quantize_nonnegative x Hf Hhi Hpos Hq))|].
  repeat split; vm_compute; reflexivity.
Qed.

(** C3 at the samples 2.0 and -0.5: the first is clamped to 1, the second
    is scaled to -16384. *)
Lemma float32ToInt16_quantizes_witness :
  lt (of_Z 1) (of_Z 2) = true /\ clamp (of_Z 2) = of_Z 1
  /\ nth_error (float32ToInt16 [dyadic (-1) (-1)]) 0
     = Some (Qtruncate (Qmult (Qmake (-1) 2) (inject_Z 32768)))
  /\ Qtruncate (Qmult (Qmake (-1) 2) (inject_Z 32768)) = (-16384)%Z.
Proof.
  destruct float32ToInt16_quantizes
    as (_ & Habove & _ & _ & _ & _ & Hneg & _).
  split; [vm_compute; reflexivity|].
  split; [apply Habove; vm_compute; reflexivity|].
  split; [|vm_compute; reflexivity].
  rewrite (Hneg (dyadic (-1) (-1))
             (Qmake (-4503599627370496) (2 ^ 53)));
    vm_compute; reflexivity.
Defined.

(** ** Silence (C4) *)

(** The length that [ToIndex] gives to an integral part [n]. *)
Lemma ToIndex_truncate (x : number) (n : Z) :
  truncate x = Some n ->
  ToIndex x
  = if ((n <? 0) || (9007199254740991 <? n))%Z then None else Some n.
Proof.
  intros Ht. unfold ToIndex.
  destruct x as [s|s| |s m e]; try discriminate Ht; now rewrite Ht.
Qed.

Lemma silence_truncates (grant : Z -> bool) (r d : number) (n : Z) :
  truncate (mul r d) = Some n -> (0 <= n <= 9007199254740991)%Z ->
  silence grant r d
  = if granted grant n then Some (repeat zero (Z.to_nat n)) else None.
Proof.
  intros Ht Hn. unfold silence, Float32Array_new.
  rewrite (ToIndex_truncate _ Ht).
  replace ((n <? 0) || (9007199254740991 <? n))%Z with false;
    [reflexivity|].
  symmetry; apply orb_false_iff; split; apply Z.ltb_ge; lia.
Qed.

Lemma silence_too_long (grant : Z -> bool) (r d : number) (n : Z) :
  truncate (mul r d) = Some n -> (9007199254740991 < n)%Z ->
  silence grant r d = None.
Proof.
  intros Ht Hn. unfold silence, Float32Array_new.
  rewrite (ToIndex_truncate _ Ht).
  replace (9007199254740991 <? n)%Z with true
    by (symmetry; apply Z.ltb_lt; lia).
  now rewrite orb_true_r.
Qed.

(** A silence that is allocated is made of zeros. *)
Lemma silence_zeros (grant : Z -> bool) (r d : number) (buf : Float32Array) :
  silence grant r d = Some buf ->
  exists n, ToIndex (mul r d) = Some n /\ buf = repeat zero (Z.to_nat n).
Proof.
  unfold silence, Float32Array_new. intros H.
  destruct (ToIndex (mul r d)) as [n|]; [|discriminate H].
  destruct (granted grant n); [|discriminate H].
  injection H as <-. eauto.
Qed.

(** C4, as the specification states it, fails: at 22050 Hz a pause of
    0.875 s is 19293.75 samples long; the nearest integer is 19294, and
    the silence has 19293 samples, on an engine that grants it and on any
    other that does. *)
Lemma silence_length_not_rounded :
  silence Example.grants (of_Z 22050) (dyadic 7 (-3))
  = Some (repeat zero (Z.to_nat 19293))
  /\ spec_silence_length (of_Z 22050) (dyadic 7 (-3)) = Some 19294%Z
  /\ Z.of_nat (length (repeat zero (Z.to_nat 19293))) <> 19294%Z
  /\ (forall (grant : Z -> bool) (buf : Float32Array),
        silence grant (of_Z 22050) (dyadic 7 (-3)) = Some buf ->
        Z.of_nat (length buf) = 19293%Z).
Proof.
  split; [vm_compute; reflexivity|].
  split; [vm_compute; reflexivity|].
  split; [rewrite repeat_length, Z2Nat.id; lia|].
  intros grant buf H.
  destruct (silence_zeros _ _ _ H) as (n & Hn & ->).
  assert (Hi : ToIndex (mul (of_Z 22050) (dyadic 7 (-3))) = Some 19293%Z)
    by (vm_compute; reflexivity).
  rewrite Hi in Hn. injection Hn as <-.
  rewrite repeat_length, Z2Nat.id; lia.
Qed.

(** C4, amended.  For a non-negative sampling rate [r] and a non-negative
    duration [d] whose product, computed on numbers, is finite, with
    integral part [n]: the silence is allocated exactly when [n] is at
    most 2^53 - 1 and the engine grants an array of [n] elements, and a
    RangeError is raised otherwise; the silence that is allocated has
    [n] samples (the fraction of the product is dropped, not rounded), and
    every sample is zero.  In particular the silence for 22050 Hz and
    0.5 s, when the engine grants it, has 11025 samples, all zero. *)
Theorem silence_length_truncated (grant : Z -> bool) (r d : number) (n : Z) :
  nonNegative r = true -> nonNegative d = true ->
  truncate (mul r d) = Some n ->
  (0 <= n)%Z
  /\ option_map Qtruncate (toQ (mul r d)) = Some n
  /\ silence grant r d
     = (if ((n <=? 9007199254740991)%Z && granted grant n)%bool
        then Some (repeat zero (Z.to_nat n)) else None)
  /\ (forall buf, silence grant r d = Some buf ->
                  length buf = Z.to_nat n
                  /\ Forall (fun x => x = zero) buf)
  /\ silence grant (of_Z 22050) (dyadic 1 (-1))
     = (if grant 11025%Z then Some (repeat zero (Z.to_nat 11025)) else None).
Proof.
  intros Hr Hd Ht.
  pose proof (truncate_mul_nonneg r d Hr Hd Ht) as H0.
  assert (Hs : silence grant r d
               = (if ((n <=? 9007199254740991)%Z && granted grant n)%bool
                  then Some (repeat zero (Z.to_nat n)) else None)).
  { destruct (Z.leb_spec n 9007199254740991) as [Hle|Hgt]; cbn [andb].
    - apply silence_truncates; [exact Ht | lia].
    - now apply (silence_too_long grant r d Ht). }
  split; [exact H0|].
  split; [now rewrite <- truncate_toQ|].
  split; [exact Hs|].
  split.
  - intros buf Hbuf. rewrite Hs in Hbuf.
    destruct ((n <=? 9007199254740991)%Z && granted grant n)%bool;
      [|discriminate Hbuf].
    injection Hbuf as <-. split; [apply repeat_length|].
    apply Forall_forall. intros x Hx. now apply repeat_spec in Hx.
  - rewrite (@silence_truncates grant (of_Z 22050) (dyadic 1 (-1)) 11025);
      [reflexivity|vm_compute; reflexivity|lia].
Qed.

(** The amended C4 at 22050 Hz: a pause of 0.875 s on an engine that grants
    up to 2^30 elements, and a pause of 2^18 s, which it refuses. *)
Lemma silence_length_truncated_witness :
  (exists buf, silence Example.grants (of_Z 22050) (dyadic 7 (-3)) = Some buf
               /\ length buf = Z.to_nat 19293)
  /\ silence Example.grants (of_Z 22050) (of_Z 262144) = None.
Proof.
  split.
  - destruct (@silence_length_truncated Example.grants (of_Z 22050)
                (dyadic 7 (-3)) 19293)
      as (_ & _ & Hs & Hbuf & _);
      [vm_compute; reflexivity ..|].
    exists (repeat zero (Z.to_nat 19293)).
    split; [exact Hs|]. exact (proj1 (Hbuf _ Hs)).
  - destruct (@silence_length_truncated Example.grants (of_Z 22050)
                (of_Z 262144) 5780275200)
      as (_ & _ & Hs & _);
      [vm_compute; reflexivity ..|].
    exact Hs.
Defined.

(** ** Segmentation (C5) *)

Lemma split_not_nil (s : jsstring) : split s <> [].
Proof.
  destruct s as [|c r]; simpl; [discriminate|].
  destruct (N.eqb c newline); [discriminate|].
  destruct (split r); discriminate.
Qed.

Lemma join_split (s : jsstring) : join (split s) = s.
Proof.
  induction s as [|c r IH]; [reflexivity|].
  simpl split. destruct (N.eqb c newline) eqn:Ec.
  - apply N.eqb_eq in Ec. subst c.
    pose proof (split_not_nil r) as Hne.
    destruct (split r) as [|l ls]; [now elim Hne|].
    change (join ([] :: l :: ls)) with ([] ++ newline :: join (l :: ls)).
    now rewrite IH.
  - pose proof (split_not_nil r) as Hne.
    destruct (split r) as [|l ls]; [now elim Hne|].
    destruct ls as [|l' ls]; simpl in *; now rewrite IH.
Qed.

Lemma split_no_newline (s : jsstring) :
  Forall (fun l => ~ In newline l) (split s).
Proof.
  induction s as [|c r IH]; simpl.
  - constructor; [intros []|constructor].
  - destruct (N.eqb c newline) eqn:Ec.
    + constructor; [intros []|exact IH].
    + destruct (split r) as [|l ls]; [repeat constructor; simpl; intros [H|[]]|].
      * apply N.eqb_neq in Ec. congruence.
      * inversion IH as [|? ? Hl Hls]; subst. constructor; [|exact Hls].
        simpl. intros [H|H]; [|now apply Hl].
        apply N.eqb_neq in Ec. congruence.
Qed.

Lemma trimStart_nil (s : jsstring) : trimStart s = [] <-> blank s = true.
Proof.
  induction s as [|c r IH]; simpl; [tauto|].
  destruct (isWhiteSpace c); simpl; [exact IH|].
  split; discriminate.
Qed.

Lemma blank_trimStart (s : jsstring) : blank (trimStart s) = blank s.
Proof.
  induction s as [|c r IH]; simpl; [reflexivity|].
  destruct (isWhiteSpace c) eqn:Ec; simpl; [exact IH|].
  now rewrite Ec.
Qed.

Lemma blank_rev (s : jsstring) : blank (rev s) = blank s.
Proof.
  unfold blank. apply eq_true_iff_eq. rewrite !forallb_forall.
  split; intros H x Hx; apply H; [now apply in_rev in Hx | now apply in_rev].
Qed.

(** [sentence.trim() !== ''] holds unless the sentence is blank. *)
Lemma trim_nil (s : jsstring) : trim s = [] <-> blank s = true.
Proof.
  unfold trim, trimEnd.
  rewrite <- (blank_trimStart s), <- (blank_rev (trimStart s)).
  rewrite <- trimStart_nil.
  split; intros H; [|now rewrite H].
  apply (f_equal (@rev N)) in H. now rewrite rev_involutive in H.
Qed.

Lemma eqb_nil (s : jsstring) : JsString.eqb s [] = true <-> s = [].
Proof.
  unfold JsString.eqb. destruct (list_eq_dec N.eq_dec s []); split; congruence.
Qed.

Lemma segment_filter (text : jsstring) :
  segment text = filter (fun l => negb (blank l)) (split text).
Proof.
  unfold segment. apply filter_ext. intros l. f_equal.
  apply eq_true_iff_eq. rewrite eqb_nil. apply trim_nil.
Qed.

(** C5, as the specification states it, fails: the entry kept for the
    line [" a"] is the line itself, not its trimmed form ["a"]. *)
Lemma segment_entry_not_trimmed :
  In (lit " a") (segment (lit " a")) /\ trim (lit " a") <> lit " a".
Proof. split; [vm_compute; auto | vm_compute; discriminate]. Qed.

(** C5, amended.  Segmentation splits the text on the newline character
    only (the lines joined by newlines give the text back, and no line
    holds a newline), drops the lines that are empty after trimming, that
    is, the blank ones, and keeps the other lines as they are (not
    trimmed), in their order; so every entry is a line of the text, is not
    empty and is not made of white space only.  In particular the
    segmentation of ["a\n\nb\n"] is [["a"; "b"]]. *)
Theorem segment_keeps_nonblank_lines (text : jsstring) :
  join (split text) = text
  /\ Forall (fun l => ~ In newline l) (split text)
  /\ segment text = filter (fun l => negb (blank l)) (split text)
  /\ (forall e, In e (segment text) ->
                In e (split text) /\ e <> [] /\ trim e <> []
                /\ blank e = false)
  /\ segment [97; 10; 10; 98; 10]%N = [[97]; [98]]%N.
Proof.
  split; [apply join_split|].
  split; [apply split_no_newline|].
  split; [apply segment_filter|].
  split; [|vm_compute; reflexivity].
  intros e He. rewrite segment_filter in He. apply filter_In in He.
  destruct He as [Hin Hb]. apply negb_true_iff in Hb.
  split; [exact Hin|]. split; [|split; [|exact Hb]].
  - intros ->. discriminate Hb.
  - intros Ht. apply trim_nil in Ht. congruence.
Qed.

(** The amended C5 on the two lines [" a "] and [" "]. *)
Lemma segment_keeps_nonblank_lines_witness :
  In (lit " a ") (segment (lit " a " ++ newline :: lit " "))
  /\ trim (lit " a ") <> [].
Proof.
  destruct (segment_keeps_nonblank_lines (lit " a " ++ newline :: lit " "))
    as (_ & _ & _ & Hentry & _).
  assert (Hin : In (lit " a ") (segment (lit " a " ++ newline :: lit " ")))
    by (vm_compute; auto).
  split; [exact Hin|]. now destruct (Hentry _ Hin) as (_ & _ & Ht & _).
Defined.

(** ** Assembly (C1, C2) *)

Lemma answers_length (h : Host) (voice : jsstring) (itemIndex : nat)
    (sentences : list jsstring) :
  forall (i : nat) (raws : list RawAudio),
    answers h voice itemIndex i sentences raws ->
    length raws = length sentences.
Proof.
  induction sentences as [|s ss IH]; intros i [|r rs] H; simpl in *;
    try contradiction; try reflexivity.
  destruct H as [_ H]. f_equal. exact (IH _ _ H).
Qed.

Lemma lastRate_cons (raw : RawAudio) (raws : list RawAudio) (seed : number) :
  lastRate (raw :: raws) seed = lastRate raws (sampling_rate raw).
Proof.
  unfold lastRate. revert raw seed.
  induction raws as [|r rs IH]; intros raw seed; [reflexivity|].
  change (map sampling_rate (raw :: r :: rs))
    with (sampling_rate raw :: map sampling_rate (r :: rs)).
  change (last (sampling_rate raw :: map sampling_rate (r :: rs)) seed)
    with (last (map sampling_rate (r :: rs)) seed).
  rewrite (IH r seed), (IH r (sampling_rate raw)). reflexivity.
Qed.

Lemma gapLengths_length (h : Host) (pauseDuration : number)
    (itemIndex : nat) (raws : list RawAudio) :
  forall (i : nat) (gaps : list Z),
    gapLengths h pauseDuration itemIndex i raws gaps ->
    length raws = length gaps.
Proof.
  induction raws as [|raw raws IH]; intros i [|g gaps] H; simpl in *;
    try contradiction; try reflexivity.
  destruct H as [_ H]. f_equal. exact (IH _ _ H).
Qed.

(** A silence is allocated with [g] samples when the integral part of the
    product is [g], in the range of [ToIndex], and the engine grants it. *)
Lemma gapLength_intro (h : Host) (pauseDuration : number)
    (itemIndex i : nat) (raw : RawAudio) (g : Z) :
  truncate (mul (sampling_rate raw) pauseDuration) = Some g ->
  (0 <= g <= 9007199254740991)%Z ->
  granted (allocates h itemIndex (SentencePause i)) g = true ->
  gapLength h pauseDuration itemIndex i raw g.
Proof.
  intros Ht Hg Hgr. split.
  - rewrite (ToIndex_truncate _ Ht).
    replace ((g <? 0) || (9007199254740991 <? g))%Z with false;
      [reflexivity|].
    symmetry; apply orb_false_iff; split; apply Z.ltb_ge; lia.
  - rewrite (silence_truncates _ _ _ Ht Hg). now rewrite Hgr.
Qed.

Lemma concatFloat32Arrays_grants (grant : Z -> bool)
    (arrays : list Float32Array) :
  granted grant (Z.of_nat (length (concat arrays))) = true ->
  concatFloat32Arrays grant arrays <> None.
Proof.
  intros H. rewrite concatFloat32Arrays_concat, H. discriminate.
Qed.

(** The loop over the sentences: when every call is answered and every
    silence is allocated, it ends with the rate of the last answer and
    has appended, for each sentence, its audio and then its silence. *)
Lemma sentenceLoop_ok (h : Host) (voice : jsstring) (pauseDuration : number)
    (itemIndex : nat) (sentences : list jsstring) :
  forall (i : nat) (raws : list RawAudio) (gaps : list Z)
         (samplingRate : number) (audioChunks : list Float32Array),
    answers h voice itemIndex i sentences raws ->
    gapLengths h pauseDuration itemIndex i raws gaps ->
    sentenceLoop h voice pauseDuration itemIndex i sentences
      samplingRate audioChunks
    = Ok (lastRate raws samplingRate, audioChunks ++ interleave raws gaps).
Proof.
  induction sentences as [|s ss IH];
    intros i raws gaps samplingRate audioChunks Ha Hg.
  - destruct raws; [|contradiction].
    destruct gaps; [|contradiction].
    simpl. now rewrite app_nil_r.
  - destruct raws as [|raw raws]; [contradiction|].
    destruct gaps as [|g gaps']; [contradiction|].
    destruct Ha as [Hgen Ha]. destruct Hg as [[_ Hgap] Hg'].
    cbn [sentenceLoop]. rewrite Hgen. cbn [bind].
    rewrite Hgap. cbn [orRangeError bind].
    rewrite (IH (S i) raws gaps' _ _ Ha Hg').
    rewrite lastRate_cons. cbn [interleave].
    now rewrite <- app_assoc.
Qed.

(** The same loop, stopped before the sentences [rest]. *)
Lemma sentenceLoop_prefix (h : Host) (voice : jsstring)
    (pauseDuration : number) (itemIndex : nat) (pre : list jsstring) :
  forall (i : nat) (raws : list RawAudio) (gaps : list Z)
         (rest : list jsstring)
         (samplingRate : number) (audioChunks : list Float32Array),
    answers h voice itemIndex i pre raws ->
    gapLengths h pauseDuration itemIndex i raws gaps ->
    sentenceLoop h voice pauseDuration itemIndex i (pre ++ rest)
      samplingRate audioChunks
    = sentenceLoop h voice pauseDuration itemIndex (i + length pre) rest
        (lastRate raws samplingRate) (audioChunks ++ interleave raws gaps).
Proof.
  induction pre as [|s pre IH];
    intros i raws gaps rest samplingRate audioChunks Ha Hg.
  - destruct raws; [|contradiction]. destruct gaps; [|contradiction].
    cbn [app length interleave]. now rewrite Nat.add_0_r, app_nil_r.
  - destruct raws as [|raw raws]; [contradiction|].
    destruct gaps as [|g gaps']; [contradiction|].
    destruct Ha as [Hgen Ha]. destruct Hg as [[_ Hgap] Hg'].
    cbn [app sentenceLoop]. rewrite Hgen. cbn [bind].
    rewrite Hgap. cbn [orRangeError bind].
    rewrite (IH (S i) raws gaps' rest _ _ Ha Hg').
    rewrite lastRate_cons. cbn [interleave length].
    rewrite <- app_assoc. f_equal. lia.
Qed.

(** Silences without samples leave the audios back to back. *)
Lemma interleave_no_gap (raws : list RawAudio) :
  concat (interleave raws (map (fun _ => 0%Z) raws))
  = concat (map audio raws).
Proof.
  induction raws as [|raw raws IH]; [reflexivity|].
  cbn [map interleave concat Z.to_nat repeat app]. now rewrite IH.
Qed.

(** A silence of length 0 is always allocated. *)
Lemma gapLengths_zero (h : Host) (pauseDuration : number) (itemIndex : nat)
    (raws : list RawAudio) :
  forall i : nat,
    Forall (fun raw => ToIndex (mul (sampling_rate raw) pauseDuration)
                       = Some 0%Z) raws ->
    gapLengths h pauseDuration itemIndex i raws (map (fun _ => 0%Z) raws).
Proof.
  induction raws as [|raw raws IH]; intros i Hall; [exact I|].
  inversion Hall as [|? ? Hraw Hrest]; subst.
  cbn [map gapLengths]. split; [|now apply IH].
  split; [exact Hraw|].
  unfold silence, Float32Array_new. now rewrite Hraw.
Qed.

(** The assembly when no silence has a sample. *)
Lemma assemble_no_gap (h : Host) (voice : jsstring) (pauseDuration : number)
    (itemIndex : nat) (text : jsstring) (raws : list RawAudio) :
  silence (allocates h itemIndex SeedPause) (of_Z 22050) pauseDuration
  <> None ->
  answers h voice itemIndex 0 (segment text) raws ->
  Forall (fun raw => ToIndex (mul (sampling_rate raw) pauseDuration)
                     = Some 0%Z) raws ->
  assemble h voice pauseDuration itemIndex text
  = if granted (allocates h itemIndex FlattenedAudio)
         (Z.of_nat (length (concat (map audio raws))))
    then Ok (concat (map audio raws), lastRate raws (of_Z 22050))
    else Throw RangeError.
Proof.
  intros Hseed Ha Hall. unfold assemble.
  destruct (silence (allocates h itemIndex SeedPause) (of_Z 22050)
              pauseDuration); [|now elim Hseed].
  cbn [orRangeError bind].
  rewrite (@sentenceLoop_ok h voice pauseDuration itemIndex (segment text)
             0 raws (map (fun _ => 0%Z) raws) (of_Z 22050) [] Ha
             (@gapLengths_zero h pauseDuration itemIndex raws 0 Hall)).
  cbn [bind app].
  rewrite concatFloat32Arrays_concat, interleave_no_gap.
  destruct (granted (allocates h itemIndex FlattenedAudio)
              (Z.of_nat (length (concat (map audio raws))))); reflexivity.
Qed.

Lemma interleave_length (raws : list RawAudio) :
  forall gaps : list Z,
    length raws = length gaps ->
    length (concat (interleave raws gaps))
    = (list_sum (map (fun raw => length (audio raw)) raws)
       + list_sum (map Z.to_nat gaps))%nat.
Proof.
  induction raws as [|raw raws IH]; intros [|g gaps] Hlen;
    try discriminate Hlen; [reflexivity|].
  cbn [interleave concat map list_sum].
  rewrite !length_app, repeat_length, IH by (simpl in Hlen; lia).
  unfold list_sum. cbn [fold_right]. lia.
Qed.

(** The assembled samples end with the silence of the last sentence. *)
Lemma interleave_trailing (raws : list RawAudio) :
  forall gaps : list Z,
    length raws = length gaps -> raws <> [] ->
    exists body,
      concat (interleave raws gaps)
      = body ++ repeat zero (Z.to_nat (last gaps 0%Z)).
Proof.
  induction raws as [|raw raws IH]; intros [|g gaps] Hlen Hne;
    try discriminate Hlen; [now elim Hne|].
  destruct raws as [|raw' raws].
  - destruct gaps; [|discriminate Hlen].
    exists (audio raw). cbn. now rewrite app_nil_r.
  - destruct gaps as [|g' gaps]; [discriminate Hlen|].
    destruct (IH (g' :: gaps)) as [body Hb]; [simpl in *; lia|discriminate|].
    exists (audio raw ++ repeat zero (Z.to_nat g) ++ body).
    change (last (g :: g' :: gaps) 0%Z) with (last (g' :: gaps) 0%Z).
    cbn [interleave concat] in *. rewrite Hb. now rewrite <- !app_assoc.
Qed.

Lemma assemble_ok (h : Host) (voice : jsstring) (pauseDuration : number)
    (itemIndex : nat) (text : jsstring) (raws : list RawAudio)
    (gaps : list Z) :
  silence (allocates h itemIndex SeedPause) (of_Z 22050) pauseDuration
  <> None ->
  answers h voice itemIndex 0 (segment text) raws ->
  gapLengths h pauseDuration itemIndex 0 raws gaps ->
  concatFloat32Arrays (allocates h itemIndex FlattenedAudio)
    (interleave raws gaps) <> None ->
  assemble h voice pauseDuration itemIndex text
  = Ok (concat (interleave raws gaps), lastRate raws (of_Z 22050)).
Proof.
  intros Hseed Ha Hg Hcat. unfold assemble.
  destruct (silence (allocates h itemIndex SeedPause) (of_Z 22050)
              pauseDuration); [|now elim Hseed].
  cbn [orRangeError bind].
  rewrite (@sentenceLoop_ok h voice pauseDuration itemIndex (segment text)
             0 raws gaps (of_Z 22050) [] Ha Hg).
  cbn [bind app].
  rewrite (@concatFloat32Arrays_granted _ _ Hcat). reflexivity.
Qed.

(** C1. For a job whose sentences are [s1..sn], [n >= 1], each answered by
    the engine, and whose buffers are all allocated (the silences and the
    assembled buffer), the assembled buffer holds, for each sentence in
    order, its audio followed by a silence; its length is the sum of the
    [n] audio lengths and of the [n] silence lengths, the length of the
    i-th silence being computed from the sampling rate of the i-th answer;
    and the buffer ends with the silence of the last sentence. *)
Theorem assemble_length (h : Host) (voice : jsstring) (pauseDuration : number)
    (itemIndex : nat) (text : jsstring) (raws : list RawAudio)
    (gaps : list Z) :
  segment text <> [] ->
  silence (allocates h itemIndex SeedPause) (of_Z 22050) pauseDuration
  <> None ->
  answers h voice itemIndex 0 (segment text) raws ->
  gapLengths h pauseDuration itemIndex 0 raws gaps ->
  concatFloat32Arrays (allocates h itemIndex FlattenedAudio)
    (interleave raws gaps) <> None ->
  exists (flattenedAudio : Float32Array) (samplingRate : number),
    assemble h voice pauseDuration itemIndex text
    = Ok (flattenedAudio, samplingRate)
    /\ length raws = length (segment text)
    /\ length gaps = length (segment text)
    /\ flattenedAudio = concat (interleave raws gaps)
    /\ length flattenedAudio
       = (list_sum (map (fun raw => length (audio raw)) raws)
          + list_sum (map Z.to_nat gaps))%nat
    /\ exists body,
         flattenedAudio = body ++ repeat zero (Z.to_nat (last gaps 0%Z)).
Proof.
  intros Hn Hseed Ha Hg Hcat.
  pose proof (answers_length _ _ _ _ _ _ Ha) as Hlr.
  pose proof (@gapLengths_length h pauseDuration itemIndex raws 0 gaps Hg)
    as Hlg.
  exists (concat (interleave raws gaps)), (lastRate raws (of_Z 22050)).
  split; [now apply assemble_ok|].
  split; [exact Hlr|]. split; [congruence|]. split; [reflexivity|].
  split; [now apply interleave_length|].
  apply interleave_trailing; [exact Hlg|].
  intros ->. destruct (segment text); [now elim Hn | discriminate Hlr].
Qed.

(** C1 on the text ["Hello\nWorld"], each sentence answered with 1000
    samples at 22050 Hz, with a pause of 0.5 s: 24050 samples. *)
Lemma assemble_length_witness :
  exists flattenedAudio samplingRate,
    assemble Example.endToEnd (lit "af_heart") (dyadic 1 (-1)) 0
      Example.helloWorld
    = Ok (flattenedAudio, samplingRate)
    /\ Z.of_nat (length flattenedAudio) = 24050%Z.
Proof.
  destruct (@assemble_length Example.endToEnd (lit "af_heart") (dyadic 1 (-1))
              0 Example.helloWorld
              [Example.stub 1000 22050; Example.stub 1000 22050]
              [11025%Z; 11025%Z])
    as (flat & rate & Hasm & _ & _ & _ & Hlen & _).
  - vm_compute. discriminate.
  - vm_compute. discriminate.
  - vm_compute. auto.
  - repeat (split; [apply gapLength_intro;
                    [vm_compute; reflexivity | lia | reflexivity]|]).
    exact I.
  - apply concatFloat32Arrays_grants. vm_compute. reflexivity.
  - exists flat, rate. split; [exact Hasm|].
    rewrite Hlen. vm_compute. reflexivity.
Defined.

(** An item whose sentences are all synthesized is encoded from the
    assembled samples and the rate of the last answer. *)
Lemma synthesizeItem_ok (h : Host) (voice : jsstring)
    (pauseDuration : number) (itemIndex : nat) (text : jsstring)
    (raws : list RawAudio) (gaps : list Z) :
  getNodeParameter_text h itemIndex = Ok text ->
  truthy text = true ->
  silence (allocates h itemIndex SeedPause) (of_Z 22050) pauseDuration
  <> None ->
  answers h voice itemIndex 0 (segment text) raws ->
  gapLengths h pauseDuration itemIndex 0 raws gaps ->
  concatFloat32Arrays (allocates h itemIndex FlattenedAudio)
    (interleave raws gaps) <> None ->
  synthesizeItem h voice pauseDuration itemIndex
  = (wavBuffer <-
       wavToBase64 h (makeWav (concat (interleave raws gaps))
                        (lastRate raws (of_Z 22050))) ;;
     Ok {| data := wavBuffer; mimeType := "audio/wav";
           fileName := "result.wav" |}).
Proof.
  intros Htext Htruthy Hseed Ha Hg Hcat.
  unfold synthesizeItem. rewrite Htext. cbn [bind]. rewrite Htruthy.
  cbn [negb].
  rewrite (@assemble_ok h voice pauseDuration itemIndex text raws gaps
             Hseed Ha Hg Hcat).
  reflexivity.
Qed.

(** C2. The sampling rate given to the WAV container of an item, once its
    sentences are synthesized and its buffers allocated, is the rate
    reported by the last sentence synthesized; when the text has no
    sentence, it is the seed, 22050 Hz, and the WAV has no sample. *)
Theorem wav_sampling_rate (h : Host) (voice : jsstring)
    (pauseDuration : number) (itemIndex : nat) (text : jsstring)
    (raws : list RawAudio) (gaps : list Z) :
  getNodeParameter_text h itemIndex = Ok text ->
  truthy text = true ->
  silence (allocates h itemIndex SeedPause) (of_Z 22050) pauseDuration
  <> None ->
  answers h voice itemIndex 0 (segment text) raws ->
  gapLengths h pauseDuration itemIndex 0 raws gaps ->
  concatFloat32Arrays (allocates h itemIndex FlattenedAudio)
    (interleave raws gaps) <> None ->
  exists wav : WaveFile,
    synthesizeItem h voice pauseDuration itemIndex
    = (wavBuffer <- wavToBase64 h wav ;;
       Ok {| data := wavBuffer; mimeType := "audio/wav";
             fileName := "result.wav" |})
    /\ numChannels wav = 1%Z /\ bitDepth wav = "16"%string
    /\ samples wav = float32ToInt16 (concat (interleave raws gaps))
    /\ sampleRate wav = last (map sampling_rate raws) (of_Z 22050)
    /\ (segment text = [] ->
        sampleRate wav = of_Z 22050 /\ samples wav = []).
Proof.
  intros Htext Htruthy Hseed Ha Hg Hcat.
  exists (makeWav (concat (interleave raws gaps)) (lastRate raws (of_Z 22050))).
  split.
  - exact (@synthesizeItem_ok h voice pauseDuration itemIndex text raws gaps
             Htext Htruthy Hseed Ha Hg Hcat).
  - repeat (split; [reflexivity|]).
    intros Hnil. rewrite Hnil in Ha.
    destruct raws; [|contradiction]. split; reflexivity.
Qed.

(** C2 on a text of two sentences, the first answered at 8 Hz and the
    second at 4 Hz: the WAV is tagged with 4 Hz. *)
Lemma wav_sampling_rate_witness :
  exists wav : WaveFile,
    synthesizeItem Example.twoRates (lit "af_heart") (dyadic 1 (-1)) 0
    = (wavBuffer <- wavToBase64 Example.twoRates wav ;;
       Ok {| data := wavBuffer; mimeType := "audio/wav";
             fileName := "result.wav" |})
    /\ sampleRate wav = of_Z 4.
Proof.
  destruct (@wav_sampling_rate Example.twoRates (lit "af_heart")
              (dyadic 1 (-1)) 0 [97; 10; 98]%N
              [Example.stub 3 8; Example.stub 2 4] [4%Z; 2%Z])
    as (wav & Hsyn & _ & _ & _ & Hrate & _).
  - reflexivity.
  - reflexivity.
  - vm_compute. discriminate.
  - vm_compute. auto.
  - repeat (split; [apply gapLength_intro;
                    [vm_compute; reflexivity | lia | reflexivity]|]).
    exact I.
  - apply concatFloat32Arrays_grants. vm_compute. reflexivity.
  - exists wav. split; [exact Hsyn | exact Hrate].
Defined.

(** ** The loop over the items *)

Lemma array_store_length {A : Type} (a : list A) :
  forall (i : nat) (v : A), length (array_store a i v) = length a.
Proof.
  induction a as [|x r IH]; intros [|j] v; simpl; auto.
Qed.

Lemma array_store_other {A : Type} (a : list A) :
  forall (i j : nat) (v : A),
    i <> j -> nth_error (array_store a i v) j = nth_error a j.
Proof.
  induction a as [|x r IH]; intros [|i] [|j] v Hij; simpl; auto.
  now elim Hij.
Qed.

Lemma array_store_same {A : Type} (a : list A) :
  forall (i : nat) (v x : A),
    nth_error a i = Some x -> nth_error (array_store a i v) i = Some v.
Proof.
  induction a as [|y r IH]; intros [|i] v x H; simpl in *;
    try discriminate; eauto.
Qed.

(** An item that is synthesized gains its audio in place (lines 142-151). *)
Lemma loopStep_success (h : Host) (voice : jsstring) (pauseDuration : number)
    (s : LoopState) (it : Item) (b : BinaryData) :
  nth_error (items s) (itemIndex s) = Some it ->
  synthesizeItem h voice pauseDuration (itemIndex s) = Ok b ->
  loopStep h voice pauseDuration s
  = Continue {| items := array_store (items s) (itemIndex s) (attachAudio it b);
                heap := heap_update (heap s) (json it) markSuccess;
                itemIndex := S (itemIndex s) |}.
Proof. intros Hit Hsyn. unfold loopStep. now rewrite Hit, Hsyn. Qed.

(** When the host continues on failure, an item that fails is left as it
    is and an item holding the error is pushed (lines 153-158). *)
Lemma loopStep_failure (h : Host) (voice : jsstring) (pauseDuration : number)
    (s : LoopState) (it : Item) (e : exn) (first : Item) (rest : list Item) :
  continueOnFail h = true ->
  nth_error (items s) (itemIndex s) = Some it ->
  synthesizeItem h voice pauseDuration (itemIndex s) = Throw e ->
  getInputData h (itemIndex s) = Ok (first :: rest) ->
  loopStep h voice pauseDuration s
  = Continue {| items := items s
                         ++ [{| json := json first; binary := None;
                                error := Some e;
                                pairedItem := Some (itemIndex s) |}];
                heap := heap s;
                itemIndex := S (itemIndex s) |}.
Proof.
  intros Hc Hit Hsyn Hin. unfold loopStep, errorItem.
  now rewrite Hit, Hsyn, Hc, Hin.
Qed.

(** Otherwise the error is thrown again, with the index of the item
    (lines 160-164). *)
Lemma loopStep_rethrow (h : Host) (voice : jsstring) (pauseDuration : number)
    (s : LoopState) (it : Item) (e : exn) :
  continueOnFail h = false ->
  nth_error (items s) (itemIndex s) = Some it ->
  synthesizeItem h voice pauseDuration (itemIndex s) = Throw e ->
  loopStep h voice pauseDuration s = Abort (rethrow e (itemIndex s)).
Proof.
  intros Hc Hit Hsyn. unfold loopStep. now rewrite Hit, Hsyn, Hc.
Qed.

(** The loop ends when the index reaches the current length of [items]. *)
Lemma loopStep_exit (h : Host) (voice : jsstring) (pauseDuration : number)
    (s : LoopState) :
  (exists its hp, loopStep h voice pauseDuration s = Exit its hp)
  <-> (length (items s) <= itemIndex s)%nat.
Proof.
  unfold loopStep. split.
  - intros (its & hp & H).
    destruct (nth_error (items s) (itemIndex s)) eqn:Hn.
    + destruct (synthesizeItem h voice pauseDuration (itemIndex s));
        [discriminate H|].
      destruct (continueOnFail h); [|discriminate H].
      destruct (errorItem h e (itemIndex s)); discriminate H.
    + now apply nth_error_None.
  - intros Hle. apply nth_error_None in Hle. rewrite Hle. eauto.
Qed.

(** ** Empty and blank texts (C6) *)

Lemma synthesizeItem_no_text (h : Host) (voice : jsstring)
    (pauseDuration : number) (itemIndex : nat) :
  getNodeParameter_text h itemIndex = Ok [] ->
  synthesizeItem h voice pauseDuration itemIndex
  = Throw (noTextProvided itemIndex).
Proof. intros H. unfold synthesizeItem. now rewrite H. Qed.

(** A text without sentence: the silence of line 113 is allocated, no
    call is made to the engine, and the WAV file has no sample. *)
Lemma synthesizeItem_blank (h : Host) (voice : jsstring)
    (pauseDuration : number) (itemIndex : nat) (text : jsstring) :
  getNodeParameter_text h itemIndex = Ok text ->
  truthy text = true -> segment text = [] ->
  synthesizeItem h voice pauseDuration itemIndex
  = match silence (allocates h itemIndex SeedPause) (of_Z 22050)
            pauseDuration with
    | Some _ =>
        wavBuffer <- wavToBase64 h emptyWav ;;
        Ok {| data := wavBuffer; mimeType := "audio/wav";
              fileName := "result.wav" |}
    | None => Throw RangeError
    end.
Proof.
  intros Htext Htruthy Hseg.
  unfold synthesizeItem. rewrite Htext. cbn [bind]. rewrite Htruthy.
  cbn [negb]. unfold assemble. rewrite Hseg.
  destruct (silence (allocates h itemIndex SeedPause) (of_Z 22050)
              pauseDuration); reflexivity.
Qed.

(** C6, as the specification states it, fails: an item whose text is one
    space has no sentence after segmentation, and yet it is not rejected:
    it gains an audio attachment, the WAV file without samples. *)
Lemma blank_text_not_rejected :
  segment (lit " ") = []
  /\ getNodeParameter_text Example.whitespaceOnly 0 = Ok (lit " ")
  /\ execute Example.whitespaceOnly [[]] 1
     = Returned
         [{| json := 0;
             binary := Some [("audio"%string,
                              {| data := []; mimeType := "audio/wav";
                                 fileName := "result.wav" |})];
             error := None; pairedItem := None |}]
         [[("ttsStatus"%string, JString (lit "success"))]].
Proof. repeat split; vm_compute; reflexivity. Qed.

(** C6, amended.  An item whose text is the empty string is rejected with
    the error "No text provided", which carries the index of the item, and
    the item gains no audio attachment: either the error is thrown out of
    the run, or an error item is pushed and the item is left as it is.  An
    item whose text is not empty but has no sentence (a blank text) is not
    rejected for its text.  When the silence of line 113 cannot be
    allocated, the item fails with a RangeError.  When it is allocated,
    the WAV file without samples at 22050 Hz is given to the encoder: if
    the encoder returns, its result is attached to the item as its audio
    and the item is marked as a success; if it throws, the item fails with
    the error of the encoder. *)
Theorem empty_text_rejected (h : Host) (voice : jsstring)
    (pauseDuration : number) (s : LoopState) (it : Item) :
  nth_error (items s) (itemIndex s) = Some it ->
  (getNodeParameter_text h (itemIndex s) = Ok [] ->
   synthesizeItem h voice pauseDuration (itemIndex s)
   = Throw (noTextProvided (itemIndex s))
   /\ match loopStep h voice pauseDuration s with
      | Continue s' =>
          continueOnFail h = true
          /\ nth_error (items s') (itemIndex s) = Some it
          /\ heap s' = heap s
          /\ exists pushed,
               items s' = items s ++ [pushed]
               /\ error pushed = Some (noTextProvided (itemIndex s))
               /\ binary pushed = None
      | Abort e =>
          (continueOnFail h = false /\ e = noTextProvided (itemIndex s))
          \/ (continueOnFail h = true
              /\ errorItem h (noTextProvided (itemIndex s)) (itemIndex s)
                 = Throw e)
      | Exit _ _ => False
      end)
  /\ (forall text,
        getNodeParameter_text h (itemIndex s) = Ok text ->
        truthy text = true -> segment text = [] ->
        (silence (allocates h (itemIndex s) SeedPause) (of_Z 22050)
           pauseDuration = None ->
         synthesizeItem h voice pauseDuration (itemIndex s)
         = Throw RangeError)
        /\ (silence (allocates h (itemIndex s) SeedPause) (of_Z 22050)
              pauseDuration <> None ->
            synthesizeItem h voice pauseDuration (itemIndex s)
            = (wavBuffer <- wavToBase64 h emptyWav ;;
               Ok {| data := wavBuffer; mimeType := "audio/wav";
                     fileName := "result.wav" |})
            /\ (forall wavBuffer,
                  wavToBase64 h emptyWav = Ok wavBuffer ->
                  loopStep h voice pauseDuration s
                  = Continue
                      {| items :=
                           array_store (items s) (itemIndex s)
                             (attachAudio it
                                {| data := wavBuffer;
                                   mimeType := "audio/wav";
                                   fileName := "result.wav" |});
                         heap := heap_update (heap s) (json it) markSuccess;
                         itemIndex := S (itemIndex s) |})
            /\ (forall e,
                  wavToBase64 h emptyWav = Throw e ->
                  synthesizeItem h voice pauseDuration (itemIndex s)
                  = Throw e))).
Proof.
  intros Hit. split.
  2:{ intros text Htext Htruthy Hseg.
      pose proof (@synthesizeItem_blank h voice pauseDuration (itemIndex s)
                    text Htext Htruthy Hseg) as Hsyn.
      destruct (silence (allocates h (itemIndex s) SeedPause) (of_Z 22050)
                  pauseDuration) as [buf|].
      - split; [discriminate|]. intros _.
        split; [exact Hsyn|]. split.
        + intros wavBuffer Hwav. rewrite Hwav in Hsyn. cbn [bind] in Hsyn.
          exact (@loopStep_success h voice pauseDuration s it _ Hit Hsyn).
        + intros e Hwav. now rewrite Hwav in Hsyn.
      - split; [intros _; exact Hsyn|]. intros H. now elim H. }
  intros Htext.
  pose proof (synthesizeItem_no_text h voice pauseDuration _ Htext) as Hsyn.
  split; [exact Hsyn|].
  unfold loopStep. rewrite Hit, Hsyn.
  destruct (continueOnFail h) eqn:Hc.
  - destruct (errorItem h (noTextProvided (itemIndex s)) (itemIndex s))
      as [pushed|e'] eqn:He; [|right; auto].
    cbn [items heap]. split; [reflexivity|].
    split; [rewrite nth_error_app1; [exact Hit|]|].
    { apply nth_error_Some. congruence. }
    split; [reflexivity|]. exists pushed. split; [reflexivity|].
    unfold errorItem in He.
    destruct (getInputData h (itemIndex s)) as [[|first rest]|];
      try discriminate He.
    cbn [bind] in He. injection He as <-. split; reflexivity.
  - left. split; reflexivity.
Qed.

(** The amended C6 on a host that has no text, and on an item whose text
    is one space, with a pause of 0.5 s and with a pause of -1 s. *)
Lemma empty_text_rejected_witness :
  synthesizeItem Example.alwaysFailing (lit "af_heart") (dyadic 1 (-1)) 0
  = Throw (noTextProvided 0)
  /\ loopStep Example.whitespaceOnly (lit "af_heart") (dyadic 1 (-1))
       {| items := [Example.item 0]; heap := [[]]; itemIndex := 0 |}
     = Continue
         {| items := [attachAudio (Example.item 0)
                        {| data := []; mimeType := "audio/wav";
                           fileName := "result.wav" |}];
            heap := [[("ttsStatus"%string, JString (lit "success"))]];
            itemIndex := 1 |}
  /\ synthesizeItem Example.whitespaceOnly (lit "af_heart") (of_Z (-1)) 0
     = Throw RangeError.
Proof.
  split; [|split].
  - destruct (@empty_text_rejected Example.alwaysFailing (lit "af_heart")
                (dyadic 1 (-1))
                {| items := [Example.item 0]; heap := [[]]; itemIndex := 0 |}
                (Example.item 0) eq_refl) as [Hempty _].
    exact (proj1 (Hempty eq_refl)).
  - destruct (@empty_text_rejected Example.whitespaceOnly (lit "af_heart")
                (dyadic 1 (-1))
                {| items := [Example.item 0]; heap := [[]]; itemIndex := 0 |}
                (Example.item 0) eq_refl) as [_ Hblank].
    destruct (Hblank (lit " ") eq_refl eq_refl eq_refl) as [_ Hok].
    destruct Hok as (_ & Hstep & _); [vm_compute; discriminate|].
    exact (Hstep [] eq_refl).
  - destruct (@empty_text_rejected Example.whitespaceOnly (lit "af_heart")
                (of_Z (-1))
                {| items := [Example.item 0]; heap := [[]]; itemIndex := 0 |}
                (Example.item 0) eq_refl) as [_ Hblank].
    destruct (Hblank (lit " ") eq_refl eq_refl eq_refl) as [Hfail _].
    apply Hfail. vm_compute. reflexivity.
Defined.

(** ** Negative pause durations (C8) *)

(** C8, as the specification states it, fails: a job whose pause duration
    is -2^-20 s is not rejected; its silences are generated (with no
    sample) and the item gains its audio. *)
Lemma negative_pause_not_rejected :
  getNodeParameter_pauseDuration Example.negativePause 0
  = Ok (dyadic (-1) (-20))
  /\ lt (dyadic (-1) (-20)) zero = true
  /\ silence Example.grants (of_Z 22050) (dyadic (-1) (-20)) = Some []
  /\ execute Example.negativePause [[]] 1
     = Returned
         [{| json := 0;
             binary := Some [("audio"%string,
                              {| data := [16383; 16383; 16383]%N;
                                 mimeType := "audio/wav";
                                 fileName := "result.wav" |})];
             error := None; pairedItem := None |}]
         [[("ttsStatus"%string, JString (lit "success"))]].
Proof. repeat split; vm_compute; reflexivity. Qed.

Lemma silence_negative (grant : Z -> bool) (r d : number) (n : Z) :
  truncate (mul r d) = Some n -> (n <= -1)%Z -> silence grant r d = None.
Proof.
  intros Ht Hn. unfold silence, Float32Array_new.
  rewrite (ToIndex_truncate _ Ht).
  replace (n <? 0)%Z with true by (symmetry; apply Z.ltb_lt; lia).
  reflexivity.
Qed.

Lemma ToIndex_zero (x : number) :
  truncate x = Some 0%Z -> ToIndex x = Some 0%Z.
Proof. intros Ht. now rewrite (ToIndex_truncate _ Ht). Qed.

(** C8, amended.  The pause duration is not validated: whatever its value,
    a run without items returns, and a run with items hands it to the
    generation of silence for each item that has a text, where each
    allocation decides.  When the integral part of 22050 times the pause
    is -1 or less, the allocation of line 113 raises a RangeError for that
    item, before any synthesis.  When it is 0 (a pause between -1/22050
    and 0), that silence is empty and the sentences are synthesized: the
    item fails with a RangeError at the first sentence for which the
    integral part of the reported rate times the pause is -1 or less; and
    when this integral part is 0 for every sentence, the silences are all
    empty and the assembled audio is the audios of the sentences back to
    back, if the engine grants the assembled buffer. *)
Theorem negative_pause_reaches_silence (h : Host) (voice : jsstring)
    (pauseDuration : number) (itemIndex : nat) (text : jsstring) (n : Z) :
  getNodeParameter_text h itemIndex = Ok text ->
  truthy text = true ->
  truncate (mul (of_Z 22050) pauseDuration) = Some n ->
  ((n <= -1)%Z ->
   silence (allocates h itemIndex SeedPause) (of_Z 22050) pauseDuration
   = None
   /\ synthesizeItem h voice pauseDuration itemIndex = Throw RangeError)
  /\ (n = 0%Z ->
      silence (allocates h itemIndex SeedPause) (of_Z 22050) pauseDuration
      = Some []
      /\ (forall pre sentence post raws raw m,
            segment text = pre ++ sentence :: post ->
            answers h voice itemIndex 0 pre raws ->
            Forall (fun r => truncate (mul (sampling_rate r) pauseDuration)
                             = Some 0%Z) raws ->
            generate h itemIndex (length pre) sentence voice = Ok raw ->
            truncate (mul (sampling_rate raw) pauseDuration) = Some m ->
            (m <= -1)%Z ->
            synthesizeItem h voice pauseDuration itemIndex
            = Throw RangeError)
      /\ (forall raws,
            answers h voice itemIndex 0 (segment text) raws ->
            Forall (fun r => truncate (mul (sampling_rate r) pauseDuration)
                             = Some 0%Z) raws ->
            assemble h voice pauseDuration itemIndex text
            = if granted (allocates h itemIndex FlattenedAudio)
                   (Z.of_nat (length (concat (map audio raws))))
              then Ok (concat (map audio raws), lastRate raws (of_Z 22050))
              else Throw RangeError))
  /\ (forall (hp : Heap) (fuel : nat),
        getInputData h 0 = Ok [] ->
        getNodeParameter_voice h 0 = Ok voice ->
        getNodeParameter_pauseDuration h 0 = Ok pauseDuration ->
        from_pretrained h = Ok tt ->
        execute h hp fuel = Returned [] hp).
Proof.
  intros Htext Htruthy Ht. split; [|split].
  - intros Hn.
    pose proof (silence_negative (allocates h itemIndex SeedPause) _ _ Ht Hn)
      as Hs.
    split; [exact Hs|].
    unfold synthesizeItem. rewrite Htext. cbn [bind]. rewrite Htruthy.
    cbn [negb]. unfold assemble. rewrite Hs. reflexivity.
  - intros ->.
    assert (Hs : silence (allocates h itemIndex SeedPause) (of_Z 22050)
                   pauseDuration = Some []).
    { rewrite (silence_truncates _ _ _ Ht) by lia. reflexivity. }
    assert (Hzero : forall raws,
               Forall (fun r => truncate (mul (sampling_rate r) pauseDuration)
                                = Some 0%Z) raws ->
               Forall (fun r => ToIndex (mul (sampling_rate r) pauseDuration)
                                = Some 0%Z) raws).
    { intros raws Hall. eapply Forall_impl; [|exact Hall].
      intros r. apply ToIndex_zero. }
    split; [exact Hs|]. split.
    + intros pre sentence post raws raw m Hseg Ha Hall Hgen Hm Hneg.
      unfold synthesizeItem. rewrite Htext. cbn [bind]. rewrite Htruthy.
      cbn [negb]. unfold assemble. rewrite Hs. cbn [orRangeError bind].
      rewrite Hseg.
      rewrite (@sentenceLoop_prefix h voice pauseDuration itemIndex pre 0
                 raws (map (fun _ => 0%Z) raws) (sentence :: post)
                 (of_Z 22050) [] Ha
                 (@gapLengths_zero h pauseDuration itemIndex raws 0
                    (Hzero raws Hall))).
      cbn [sentenceLoop Nat.add]. rewrite Hgen. cbn [bind].
      now rewrite (silence_negative _ _ _ Hm Hneg).
    + intros raws Ha Hall. apply assemble_no_gap.
      * rewrite Hs. discriminate.
      * exact Ha.
      * exact (Hzero raws Hall).
  - intros hp fuel Hin Hv Hp Hl. unfold execute.
    rewrite Hin, Hv, Hp, Hl. destruct fuel; reflexivity.
Qed.

(** The amended C8 at a pause of -1 s, refused by the allocation of line
    113; at a pause of -2^-20 s, which gives empty silences; and at a
    pause of -11 * 2^-18 s with an engine that reports 24000 Hz, which
    passes line 113 and is refused after the first sentence. *)
Lemma negative_pause_reaches_silence_witness :
  synthesizeItem Example.negativePause (lit "af_heart") (of_Z (-1)) 0
  = Throw RangeError
  /\ assemble Example.negativePause (lit "af_heart") (dyadic (-1) (-20)) 0
       (lit "a")
     = Ok (audio (Example.stub 3 8), of_Z 8)
  /\ synthesizeItem Scenario.negativePause24k (lit "af_heart")
       (dyadic (-11) (-18)) 0
     = Throw RangeError.
Proof.
  split; [|split].
  - destruct (@negative_pause_reaches_silence Example.negativePause
                (lit "af_heart") (of_Z (-1)) 0 (lit "a") (-22050)%Z)
      as (Hneg & _ & _).
    + reflexivity.
    + reflexivity.
    + vm_compute. reflexivity.
    + apply Hneg. lia.
  - destruct (@negative_pause_reaches_silence Example.negativePause
                (lit "af_heart") (dyadic (-1) (-20)) 0 (lit "a") 0%Z)
      as (_ & Hzero & _).
    + reflexivity.
    + reflexivity.
    + vm_compute. reflexivity.
    + destruct (Hzero eq_refl) as (_ & _ & Hall).
      rewrite (Hall [Example.stub 3 8]).
      * reflexivity.
      * vm_compute. auto.
      * repeat constructor.
  - destruct (@negative_pause_reaches_silence Scenario.negativePause24k
                (lit "af_heart") (dyadic (-11) (-18)) 0 (lit "a") 0%Z)
      as (_ & Hzero & _).
    + reflexivity.
    + reflexivity.
    + vm_compute. reflexivity.
    + destruct (Hzero eq_refl) as (_ & Hlater & _).
      apply (Hlater [] (lit "a") [] [] (Example.stub 3 24000) (-1)%Z).
      * reflexivity.
      * exact I.
      * constructor.
      * reflexivity.
      * vm_compute. reflexivity.
      * lia.
Defined.

(** ** Continue on failure (C7) *)

(** C7, as the specification states it, fails: with three items, a
    synthesis failure on the first one and a host that continues on
    failure, the run returns four items, not three: the failed item is
    still first, without audio and without error, the other two are still
    second and third, and the error item comes fourth (where the loop
    visits it in turn and, its text being synthesized, attaches an audio
    to it). *)
Lemma failed_item_not_relocated :
  let success (ref : nat) :=
    {| json := ref;
       binary := Some [("audio"%string, Example.helloAudio)];
       error := None; pairedItem := None |} in
  exists (its : list Item) (hp : Heap),
    execute Scenario.firstItemFails Example.threeHeap 4 = Returned its hp
    /\ its = [Example.item 0; success 1%nat; success 2%nat;
              {| json := 0;
                 binary := Some [("audio"%string, Example.helloAudio)];
                 error := Some (ForeignError 7); pairedItem := Some 0%nat |}]
    /\ its <> [success 1%nat; success 2%nat;
               {| json := 0; binary := None; error := Some (ForeignError 7);
                  pairedItem := Some 0%nat |}].
Proof.
  intros success. eexists. eexists.
  split; [vm_compute; reflexivity|]. split; [reflexivity|]. discriminate.
Qed.

(** The steps of a run, one at a time. *)
Lemma runLoop_step (h : Host) (voice : jsstring) (pauseDuration : number)
    (fuel : nat) (s s' : LoopState) :
  loopStep h voice pauseDuration s = Continue s' ->
  runLoop h voice pauseDuration (S fuel) s
  = runLoop h voice pauseDuration fuel s'.
Proof. intros H. cbn [runLoop]. now rewrite H. Qed.

Lemma runLoop_last (h : Host) (voice : jsstring) (pauseDuration : number)
    (s s' : LoopState) :
  loopStep h voice pauseDuration s = Continue s' ->
  runLoop h voice pauseDuration 0 s = Running s'.
Proof. intros H. cbn [runLoop]. now rewrite H. Qed.

Lemma runLoop_exit (h : Host) (voice : jsstring) (pauseDuration : number)
    (fuel : nat) (s : LoopState) :
  (length (items s) <= itemIndex s)%nat ->
  runLoop h voice pauseDuration fuel s = Returned (items s) (heap s).
Proof.
  intros Hle. apply nth_error_None in Hle.
  destruct fuel; cbn [runLoop]; unfold loopStep; now rewrite Hle.
Qed.

Lemma runLoop_abort (h : Host) (voice : jsstring) (pauseDuration : number)
    (fuel : nat) (s : LoopState) (e : exn) :
  loopStep h voice pauseDuration s = Abort e ->
  runLoop h voice pauseDuration fuel s = Thrown e.
Proof. intros H. destruct fuel; cbn [runLoop]; now rewrite H. Qed.

(** C7, amended.  When the host continues on failure, every item keeps its
    position: an item that is synthesized gains its audio in place, and an
    item that fails is left unchanged, without audio; for the latter, when
    the handler completes, one more item is appended at the end, holding
    the error and the index of the failed item.  With three items of which
    the first fails, the collection after the three items have been
    processed is [item1-unchanged, item2-success, item3-success,
    error-item], the error item sharing the [json] of the first item; and
    when the error item is then processed in its turn, the run returns
    these four items, the fourth with an audio. *)
Theorem failed_item_appended (h : Host) (voice : jsstring)
    (pauseDuration : number) :
  continueOnFail h = true ->
  (forall s it b,
      nth_error (items s) (itemIndex s) = Some it ->
      synthesizeItem h voice pauseDuration (itemIndex s) = Ok b ->
      exists s',
        loopStep h voice pauseDuration s = Continue s'
        /\ length (items s') = length (items s)
        /\ nth_error (items s') (itemIndex s) = Some (attachAudio it b)
        /\ forall j, j <> itemIndex s ->
                     nth_error (items s') j = nth_error (items s) j)
  /\ (forall s it e,
        nth_error (items s) (itemIndex s) = Some it ->
        synthesizeItem h voice pauseDuration (itemIndex s) = Throw e ->
        match loopStep h voice pauseDuration s with
        | Continue s' =>
            heap s' = heap s
            /\ itemIndex s' = S (itemIndex s)
            /\ (forall j, (j < length (items s))%nat ->
                          nth_error (items s') j = nth_error (items s) j)
            /\ exists pushed,
                 items s' = items s ++ [pushed]
                 /\ error pushed = Some e
                 /\ pairedItem pushed = Some (itemIndex s)
                 /\ binary pushed = None
        | Abort e' => errorItem h e (itemIndex s) = Throw e'
        | Exit _ _ => False
        end)
  /\ (forall hp a b c e b2 b3,
        getInputData h 0 = Ok [a; b; c] ->
        getNodeParameter_voice h 0 = Ok voice ->
        getNodeParameter_pauseDuration h 0 = Ok pauseDuration ->
        from_pretrained h = Ok tt ->
        synthesizeItem h voice pauseDuration 0 = Throw e ->
        synthesizeItem h voice pauseDuration 1 = Ok b2 ->
        synthesizeItem h voice pauseDuration 2 = Ok b3 ->
        let pushed := {| json := json a; binary := None; error := Some e;
                         pairedItem := Some 0%nat |} in
        let hp' := heap_update (heap_update hp (json b) markSuccess)
                     (json c) markSuccess in
        execute h hp 2
        = Running {| items := [a; attachAudio b b2; attachAudio c b3; pushed];
                     heap := hp'; itemIndex := 3 |}
        /\ forall b4 fuel,
             synthesizeItem h voice pauseDuration 3 = Ok b4 ->
             (4 <= fuel)%nat ->
             execute h hp fuel
             = Returned [a; attachAudio b b2; attachAudio c b3;
                         attachAudio pushed b4]
                 (heap_update hp' (json a) markSuccess)).
Proof.
  intros Hc. split; [|split].
  - intros s it b Hit Hsyn. eexists.
    split; [exact (@loopStep_success h voice pauseDuration s it b Hit Hsyn)|].
    cbn [items].
    split; [apply array_store_length|].
    split; [exact (array_store_same _ _ _ Hit)|].
    intros j Hj. apply array_store_other. congruence.
  - intros s it e Hit Hsyn. unfold loopStep. rewrite Hit, Hsyn, Hc.
    destruct (errorItem h e (itemIndex s)) as [pushed|e'] eqn:He;
      [|reflexivity].
    cbn [items heap itemIndex].
    split; [reflexivity|]. split; [reflexivity|].
    split; [intros j Hj; now apply nth_error_app1|].
    exists pushed. split; [reflexivity|].
    unfold errorItem in He.
    destruct (getInputData h (itemIndex s)) as [[|first rest]|];
      try discriminate He.
    cbn [bind] in He. injection He as <-. repeat split.
  - intros hp a b c e b2 b3 Hin Hv Hp Hl H0 H1 H2 pushed hp'.
    assert (Hs1 : loopStep h voice pauseDuration
                    {| items := [a; b; c]; heap := hp; itemIndex := 0 |}
                  = Continue {| items := [a; b; c; pushed]; heap := hp;
                                itemIndex := 1 |})
      by exact (@loopStep_failure h voice pauseDuration
                  {| items := [a; b; c]; heap := hp; itemIndex := 0 |}
                  a e a [b; c] Hc eq_refl H0 Hin).
    assert (Hs2 : loopStep h voice pauseDuration
                    {| items := [a; b; c; pushed]; heap := hp;
                       itemIndex := 1 |}
                  = Continue {| items := [a; attachAudio b b2; c; pushed];
                                heap := heap_update hp (json b) markSuccess;
                                itemIndex := 2 |})
      by exact (@loopStep_success h voice pauseDuration
                  {| items := [a; b; c; pushed]; heap := hp;
                     itemIndex := 1 |} b b2 eq_refl H1).
    assert (Hs3 : loopStep h voice pauseDuration
                    {| items := [a; attachAudio b b2; c; pushed];
                       heap := heap_update hp (json b) markSuccess;
                       itemIndex := 2 |}
                  = Continue {| items := [a; attachAudio b b2;
                                          attachAudio c b3; pushed];
                                heap := hp'; itemIndex := 3 |})
      by exact (@loopStep_success h voice pauseDuration
                  {| items := [a; attachAudio b b2; c; pushed];
                     heap := heap_update hp (json b) markSuccess;
                     itemIndex := 2 |} c b3 eq_refl H2).
    assert (Hexec : forall fuel,
               execute h hp fuel
               = runLoop h voice pauseDuration fuel
                   {| items := [a; b; c]; heap := hp; itemIndex := 0 |}).
    { intros fuel. unfold execute. now rewrite Hin, Hv, Hp, Hl. }
    split.
    + rewrite Hexec, (@runLoop_step h voice pauseDuration _ _ _ Hs1), (@runLoop_step h voice pauseDuration _ _ _ Hs2).
      exact (@runLoop_last h voice pauseDuration _ _ Hs3).
    + intros b4 fuel H3 Hfuel.
      destruct fuel as [|[|[|[|fuel]]]]; try lia.
      rewrite Hexec, (@runLoop_step h voice pauseDuration _ _ _ Hs1), (@runLoop_step h voice pauseDuration _ _ _ Hs2),
        (@runLoop_step h voice pauseDuration _ _ _ Hs3).
      rewrite (@runLoop_step h voice pauseDuration fuel _ _
                 (@loopStep_success h voice pauseDuration
                    {| items := [a; attachAudio b b2; attachAudio c b3;
                                 pushed];
                       heap := hp'; itemIndex := 3 |} pushed b4 eq_refl H3)).
      apply runLoop_exit. cbn. lia.
Qed.

(** The amended C7 on three items of which the first fails, on a host
    with one input. *)
Lemma failed_item_appended_witness :
  execute Scenario.firstItemFails Example.threeHeap 2
  = Running
      {| items := [Example.item 0;
                   attachAudio (Example.item 1) Example.helloAudio;
                   attachAudio (Example.item 2) Example.helloAudio;
                   {| json := 0; binary := None;
                      error := Some (ForeignError 7);
                      pairedItem := Some 0%nat |}];
         heap := heap_update (heap_update Example.threeHeap 1 markSuccess)
                   2 markSuccess;
         itemIndex := 3 |}.
Proof.
  destruct (@failed_item_appended Scenario.firstItemFails (lit "af_heart")
              (dyadic 1 (-1)) eq_refl) as (_ & _ & Hthree).
  apply (Hthree Example.threeHeap (Example.item 0) (Example.item 1)
           (Example.item 2) (ForeignError 7) Example.helloAudio
           Example.helloAudio);
    vm_compute; reflexivity.
Defined.

(** ** The loop visits the items it appends (C9) *)

(** One iteration visits the item at the current index, moves to the
    next index and never shortens the collection. *)
Lemma loopStep_continue (h : Host) (voice : jsstring) (pauseDuration : number)
    (s s' : LoopState) :
  loopStep h voice pauseDuration s = Continue s' ->
  itemIndex s' = S (itemIndex s)
  /\ (itemIndex s < length (items s))%nat
  /\ (length (items s) <= length (items s'))%nat.
Proof.
  unfold loopStep. intros H.
  destruct (nth_error (items s) (itemIndex s)) as [it|] eqn:Hit;
    [|discriminate H].
  assert (Hlt : (itemIndex s < length (items s))%nat)
    by (apply nth_error_Some; congruence).
  destruct (synthesizeItem h voice pauseDuration (itemIndex s)) as [b|e].
  - injection H as <-. cbn [items itemIndex].
    rewrite array_store_length. auto.
  - destruct (continueOnFail h); [|discriminate H].
    destruct (errorItem h e (itemIndex s)); [|discriminate H].
    injection H as <-. cbn [items itemIndex]. rewrite length_app. simpl.
    repeat split; auto; lia.
Qed.

Lemma loopStep_exit_items (h : Host) (voice : jsstring)
    (pauseDuration : number) (s : LoopState) (its : list Item) (hp : Heap) :
  loopStep h voice pauseDuration s = Exit its hp ->
  its = items s /\ hp = heap s /\ (length (items s) <= itemIndex s)%nat.
Proof.
  intros H.
  assert (Hle : (length (items s) <= itemIndex s)%nat)
    by (apply (loopStep_exit h voice pauseDuration); eauto).
  unfold loopStep in H. apply nth_error_None in Hle. rewrite Hle in H.
  injection H as <- <-. apply nth_error_None in Hle. auto.
Qed.

(** After [n] iterations the loop is at index [n]. *)
Lemma iterate_index (h : Host) (voice : jsstring) (pauseDuration : number)
    (n : nat) :
  forall s s' : LoopState,
    iterate h voice pauseDuration n s = Continue s' ->
    itemIndex s' = (itemIndex s + n)%nat
    /\ (length (items s) <= length (items s'))%nat.
Proof.
  induction n as [|n IH]; intros s s' H; cbn [iterate] in H.
  - injection H as <-. split; lia.
  - destruct (loopStep h voice pauseDuration s) as [s1| |] eqn:Hstep;
      try discriminate H.
    destruct (loopStep_continue _ _ _ _ Hstep) as (Hi & _ & Hl).
    destruct (IH s1 s' H) as [Hi' Hl']. split; lia.
Qed.

Lemma runLoop_iterate (h : Host) (voice : jsstring) (pauseDuration : number)
    (fuel : nat) :
  forall s : LoopState,
    runLoop h voice pauseDuration fuel s
    = match iterate h voice pauseDuration (S fuel) s with
      | Continue s' => Running s'
      | Exit its hp => Returned its hp
      | Abort e => Thrown e
      end.
Proof.
  induction fuel as [|fuel IH]; intros s; cbn [runLoop iterate].
  - destruct (loopStep h voice pauseDuration s); reflexivity.
  - destruct (loopStep h voice pauseDuration s) as [s'| |]; try reflexivity.
    rewrite IH. reflexivity.
Qed.

(** C9.  The loop tests the current length of the collection, so the
    item appended for a failure is visited in its turn; but an appended
    item that fails again does not cause a further append on a host with
    one input.  With one input item that fails, on a host that continues
    on failure: after the first iteration the collection holds the item
    and its error item, and the loop goes on at index 1, the error item;
    when the processing of the error item fails, the handler of line 155
    asks the host for the items of input 1, finds none, and its TypeError
    ends the run. *)
Theorem appended_item_failure_throws (h : Host) (voice : jsstring)
    (pauseDuration : number) (hp : Heap) (it : Item) (e0 e1 : exn) :
  continueOnFail h = true ->
  getInputData h 0 = Ok [it] ->
  getInputData h 1 = Ok [] ->
  getNodeParameter_voice h 0 = Ok voice ->
  getNodeParameter_pauseDuration h 0 = Ok pauseDuration ->
  from_pretrained h = Ok tt ->
  synthesizeItem h voice pauseDuration 0 = Throw e0 ->
  synthesizeItem h voice pauseDuration 1 = Throw e1 ->
  execute h hp 0
  = Running {| items := [it; {| json := json it; binary := None;
                                error := Some e0;
                                pairedItem := Some 0%nat |}];
               heap := hp; itemIndex := 1 |}
  /\ forall fuel, (1 <= fuel)%nat -> execute h hp fuel = Thrown TypeError.
Proof.
  intros Hc Hin0 Hin1 Hv Hp Hl H0 H1.
  assert (Hexec : forall fuel,
             execute h hp fuel
             = runLoop h voice pauseDuration fuel
                 {| items := [it]; heap := hp; itemIndex := 0 |}).
  { intros fuel. unfold execute. now rewrite Hin0, Hv, Hp, Hl. }
  pose proof (@loopStep_failure h voice pauseDuration
                {| items := [it]; heap := hp; itemIndex := 0 |}
                it e0 it [] Hc eq_refl H0 Hin0) as Hs1.
  cbn [items heap itemIndex app] in Hs1.
  split.
  - rewrite Hexec. exact (@runLoop_last h voice pauseDuration _ _ Hs1).
  - intros fuel Hfuel. destruct fuel as [|fuel]; [lia|].
    rewrite Hexec, (@runLoop_step h voice pauseDuration _ _ _ Hs1).
    apply runLoop_abort. unfold loopStep, errorItem.
    cbn [items itemIndex nth_error]. now rewrite H1, Hc, Hin1.
Qed.

(** C9 on one item without text, on a host with one input. *)
Lemma appended_item_failure_throws_witness :
  execute Scenario.noText [[]] 0
  = Running {| items := [Example.item 0;
                         {| json := 0; binary := None;
                            error := Some (noTextProvided 0);
                            pairedItem := Some 0%nat |}];
               heap := [[]]; itemIndex := 1 |}
  /\ execute Scenario.noText [[]] 5 = Thrown TypeError.
Proof.
  destruct (@appended_item_failure_throws Scenario.noText (lit "af_heart")
              (dyadic 1 (-1)) [[]] (Example.item 0)
              (noTextProvided 0) (noTextProvided 1))
    as [Hfirst Hthen]; try reflexivity.
  split; [exact Hfirst|]. apply Hthen. repeat constructor.
Defined.

(** ** The voice and the pause of a run (C10) *)

Section Parameters.

Variable h : Host.
Variables (voiceOf : nat -> result jsstring) (pauseOf : nat -> result number).
Variables (voice : jsstring) (pauseDuration : number).

(** The processing of the items does not read the parameters of the
    host again: it uses the [voice] and the [pauseDuration] it is
    given. *)
Lemma sentenceLoop_withParameters (itemIndex : nat)
    (sentences : list jsstring) :
  forall i samplingRate audioChunks,
    sentenceLoop (withParameters h voiceOf pauseOf) voice pauseDuration itemIndex i sentences
      samplingRate audioChunks
    = sentenceLoop h voice pauseDuration itemIndex i sentences
        samplingRate audioChunks.
Proof.
  induction sentences as [|s ss IH]; intros i samplingRate audioChunks;
    [reflexivity|].
  cbn [sentenceLoop].
  change (generate (withParameters h voiceOf pauseOf)) with (generate h).
  change (allocates (withParameters h voiceOf pauseOf)) with (allocates h).
  destruct (generate h itemIndex i s voice) as [raw|e]; [|reflexivity].
  cbn [bind].
  destruct (orRangeError
              (silence (allocates h itemIndex (SentencePause i))
                 (sampling_rate raw) pauseDuration));
    [|reflexivity].
  cbn [bind]. apply IH.
Qed.

Lemma synthesizeItem_withParameters (itemIndex : nat) :
  synthesizeItem (withParameters h voiceOf pauseOf) voice pauseDuration itemIndex
  = synthesizeItem h voice pauseDuration itemIndex.
Proof.
  unfold synthesizeItem, assemble.
  change (getNodeParameter_text (withParameters h voiceOf pauseOf))
  with (getNodeParameter_text h).
  change (wavToBase64 (withParameters h voiceOf pauseOf))
  with (wavToBase64 h).
  change (allocates (withParameters h voiceOf pauseOf)) with (allocates h).
  destruct (getNodeParameter_text h itemIndex) as [text|e]; [|reflexivity].
  cbn [bind]. destruct (negb (truthy text)); [reflexivity|].
  destruct (orRangeError
              (silence (allocates h itemIndex SeedPause) (of_Z 22050)
                 pauseDuration));
    [|reflexivity].
  cbn [bind]. now rewrite sentenceLoop_withParameters.
Qed.

Lemma loopStep_withParameters (s : LoopState) :
  loopStep (withParameters h voiceOf pauseOf) voice pauseDuration s = loopStep h voice pauseDuration s.
Proof.
  unfold loopStep. rewrite synthesizeItem_withParameters. reflexivity.
Qed.

Lemma runLoop_withParameters (fuel : nat) :
  forall s : LoopState,
    runLoop (withParameters h voiceOf pauseOf) voice pauseDuration fuel s
    = runLoop h voice pauseDuration fuel s.
Proof.
  induction fuel as [|fuel IH]; intros s; cbn [runLoop];
    rewrite loopStep_withParameters;
    destruct (loopStep h voice pauseDuration s); auto.
Qed.

End Parameters.

(** C10. The voice and the pause duration of a run are read once, for
    item index 0, and this pair is used for every item: once they are
    read, the run is the loop over the items with this pair; and two runs
    on hosts that differ only in the voice or the pause duration they have
    for the other item indices end in the same way, item for item. *)
Theorem parameters_read_at_first_item (h : Host)
    (voiceOf voiceOf' : nat -> result jsstring)
    (pauseOf pauseOf' : nat -> result number) (hp : Heap) (fuel : nat) :
  voiceOf 0%nat = voiceOf' 0%nat ->
  pauseOf 0%nat = pauseOf' 0%nat ->
  execute (withParameters h voiceOf pauseOf) hp fuel
  = execute (withParameters h voiceOf' pauseOf') hp fuel
  /\ (forall items0 voice pauseDuration,
        getInputData h 0 = Ok items0 ->
        voiceOf 0%nat = Ok voice ->
        pauseOf 0%nat = Ok pauseDuration ->
        from_pretrained h = Ok tt ->
        execute (withParameters h voiceOf pauseOf) hp fuel
        = runLoop h voice pauseDuration fuel
            {| items := items0; heap := hp; itemIndex := 0 |}).
Proof.
  intros Hv Hp. split.
  - unfold execute.
    change (getInputData (withParameters h voiceOf pauseOf))
      with (getInputData h).
    change (getInputData (withParameters h voiceOf' pauseOf'))
      with (getInputData h).
    change (from_pretrained (withParameters h voiceOf pauseOf))
      with (from_pretrained h).
    change (from_pretrained (withParameters h voiceOf' pauseOf'))
      with (from_pretrained h).
    cbn [getNodeParameter_voice getNodeParameter_pauseDuration withParameters].
    rewrite <- Hv, <- Hp.
    destruct (getInputData h 0); [|reflexivity].
    destruct (voiceOf 0%nat); [|reflexivity].
    destruct (pauseOf 0%nat); [|reflexivity].
    destruct (from_pretrained h); [|reflexivity].
    now rewrite !runLoop_withParameters.
  - intros items0 voice pauseDuration Hin Hvo Hpa Hl. unfold execute.
    change (getInputData (withParameters h voiceOf pauseOf))
      with (getInputData h).
    change (from_pretrained (withParameters h voiceOf pauseOf))
      with (from_pretrained h).
    cbn [getNodeParameter_voice getNodeParameter_pauseDuration withParameters].
    rewrite Hin, Hvo, Hpa, Hl. apply runLoop_withParameters.
Qed.

(** C10 on the three items of the example: another voice and another
    pause for the items after the first change nothing. *)
Lemma parameters_read_at_first_item_witness :
  execute (withParameters Example.threeItems
             (fun _ => Ok (lit "af_heart")) (fun _ => Ok (dyadic 1 (-1))))
    Example.threeHeap 4
  = execute (withParameters Example.threeItems
               (fun i => Ok (if Nat.eqb i 0 then lit "af_heart"
                             else lit "bm_george"))
               (fun i => Ok (if Nat.eqb i 0 then dyadic 1 (-1)
                             else of_Z 3)))
      Example.threeHeap 4.
Proof.
  exact (proj1 (@parameters_read_at_first_item Example.threeItems
                  (fun _ => Ok (lit "af_heart"))
                  (fun i => Ok (if Nat.eqb i 0 then lit "af_heart"
                                else lit "bm_george"))
                  (fun _ => Ok (dyadic 1 (-1)))
                  (fun i => Ok (if Nat.eqb i 0 then dyadic 1 (-1)
                                else of_Z 3))
                  Example.threeHeap 4 eq_refl eq_refl)).
Defined.

(** * Further properties of the code *)

(** ** [concatFloat32Arrays] *)

Lemma firstn_skipn_middle {A : Type} (pre mid post : list A) :
  firstn (length mid) (skipn (length pre) (pre ++ mid ++ post)) = mid.
Proof.
  rewrite skipn_app, skipn_all, Nat.sub_diag. cbn [app skipn].
  rewrite firstn_app, firstn_all, Nat.sub_diag. cbn [firstn].
  apply app_nil_r.
Qed.

Lemma concat_split_at {A : Type} (ls : list (list A)) :
  forall (k : nat) (l : list A),
    nth_error ls k = Some l ->
    concat ls = concat (firstn k ls) ++ l ++ concat (skipn (S k) ls).
Proof.
  induction ls as [|x ls IH]; intros [|k] l H; try discriminate H.
  - cbn in H. injection H as ->. reflexivity.
  - cbn [nth_error] in H. cbn [firstn skipn concat].
    rewrite (IH k l H) at 1. now rewrite app_assoc.
Qed.

(** X1. [concatFloat32Arrays] raises, a RangeError, exactly when the
    engine refuses the array of the total length; the copies never raise.
    Otherwise it returns the arrays laid end to end in their order: its
    length is the sum of their lengths, and the [k]-th array is found
    unchanged at the offset made of the lengths of the arrays before
    it. *)
Theorem concatFloat32Arrays_layout (grant : Z -> bool)
    (arrays : list Float32Array) :
  concatFloat32Arrays grant arrays
  = (if granted grant (Z.of_nat (list_sum (map (@length number) arrays)))
     then Some (concat arrays) else None)
  /\ forall result : Float32Array,
       concatFloat32Arrays grant arrays = Some result ->
       result = concat arrays
       /\ length result = list_sum (map (@length number) arrays)
       /\ forall k arr,
            nth_error arrays k = Some arr ->
            firstn (length arr) (skipn (offsetOf arrays k) result) = arr.
Proof.
  assert (Hlen : length (concat arrays)
                 = list_sum (map (@length number) arrays)).
  { induction arrays as [|a rest IH]; [reflexivity|].
    cbn [concat map]. rewrite length_app, IH. reflexivity. }
  rewrite concatFloat32Arrays_concat, Hlen.
  split; [reflexivity|]. intros result Hres.
  destruct (granted grant
              (Z.of_nat (list_sum (map (@length number) arrays))));
    [|discriminate Hres].
  injection Hres as <-.
  split; [reflexivity|]. split; [exact Hlen|].
  intros k arr H. unfold offsetOf.
  rewrite (concat_split_at arrays k H) at 1.
  apply firstn_skipn_middle.
Qed.

(** X1 on three arrays, the second of which is empty, with an engine that
    grants the four elements, and with one that grants nothing. *)
Lemma concatFloat32Arrays_layout_witness :
  (exists result,
     concatFloat32Arrays Example.grants [[of_Z 1]; []; [of_Z 2; of_Z 3]]
     = Some result
     /\ firstn 2 (skipn 1 result) = [of_Z 2; of_Z 3])
  /\ concatFloat32Arrays (fun _ => false) [[of_Z 1]; []; [of_Z 2; of_Z 3]]
     = None.
Proof.
  split.
  - destruct (concatFloat32Arrays_layout Example.grants
                [[of_Z 1]; []; [of_Z 2; of_Z 3]]) as [Hres Hlayout].
    exists (concat [[of_Z 1]; []; [of_Z 2; of_Z 3]]).
    split; [exact Hres|].
    destruct (Hlayout _ Hres) as (_ & _ & Hslice).
    exact (Hslice 2%nat [of_Z 2; of_Z 3] eq_refl).
  - exact (proj1 (concatFloat32Arrays_layout (fun _ => false)
                    [[of_Z 1]; []; [of_Z 2; of_Z 3]])).
Defined.

(** ** [float32ToInt16] *)

Lemma quantize_zero : quantizeSample zero = 0%Z.
Proof. vm_compute. reflexivity. Qed.

Lemma float32ToInt16_repeat_zero (n : nat) :
  float32ToInt16 (repeat zero n) = repeat 0%Z n.
Proof.
  rewrite float32ToInt16_map.
  induction n as [|n IH]; [reflexivity|].
  cbn [repeat map]. now rewrite IH, quantize_zero.
Qed.

(** X2. [float32ToInt16] keeps the length of its input and works sample by
    sample: the conversion of two buffers laid end to end is the
    conversions of the two laid end to end, and a silence is converted to
    as many zeros. *)
Theorem float32ToInt16_append (a b : Float32Array) (n : nat) :
  length (float32ToInt16 a) = length a
  /\ float32ToInt16 (a ++ b) = float32ToInt16 a ++ float32ToInt16 b
  /\ float32ToInt16 (Float32Array_alloc n) = Int16Array_alloc n.
Proof.
  split; [rewrite float32ToInt16_map; apply length_map|].
  split; [rewrite !float32ToInt16_map; apply map_app|].
  apply float32ToInt16_repeat_zero.
Qed.

(** Every number is at 1 or above, at -1 or below, strictly in between,
    or is NaN. *)
Lemma clamp_regions (x : number) :
  isNaN x = true
  \/ SFleb (of_Z 1) x = true
  \/ SFleb x (of_Z (-1)) = true
  \/ (lt (of_Z (-1)) x = true /\ lt x (of_Z 1) = true).
Proof.
  destruct x as [s|s| |s m e]; [| |now left|]; right.
  all: match goal with |- context [SFleb (of_Z 1) ?x] => set (y := x) end.
  all: unfold SFleb, lt, SFltb;
    rewrite (SFcompare_antisym (of_Z (-1)) y), (SFcompare_antisym y (of_Z 1)).
  all: assert (H1 : exists c, SFcompare (of_Z 1) y = Some c)
         by (rewrite one_repr; unfold y, SFcompare; cbv beta iota;
             try destruct s; eauto).
  all: assert (H2 : exists c, SFcompare y (of_Z (-1)) = Some c)
         by (rewrite minus_one_repr; unfold y, SFcompare; cbv beta iota;
             try destruct s; eauto).
  all: destruct H1 as [c1 ->], H2 as [c2 ->];
    destruct c1, c2; cbn [option_map CompOpp]; auto.
Qed.

Lemma at_least_one_not_negative (x : number) :
  SFleb (of_Z 1) x = true -> lt x zero = false.
Proof.
  rewrite one_repr.
  destruct x as [[|]|[|]| |[|] m e]; unfold SFleb, SFcompare; cbv beta iota;
    intros H; try discriminate H; reflexivity.
Qed.

Lemma at_most_minus_one_negative (x : number) :
  SFleb x (of_Z (-1)) = true -> lt x zero = true.
Proof.
  rewrite minus_one_repr.
  destruct x as [[|]|[|]| |[|] m e]; unfold SFleb, SFcompare; cbv beta iota;
    intros H; try discriminate H; reflexivity.
Qed.

Lemma quantize_nan : quantizeSample S754_nan = 0%Z.
Proof. vm_compute. reflexivity. Qed.

Lemma quantize_sign (x : number) :
  float32 x = true ->
  (lt x zero = true -> (-32768 <= quantizeSample x <= 0)%Z)
  /\ (lt x zero = false -> (0 <= quantizeSample x <= 32767)%Z).
Proof.
  intros Hf.
  destruct (clamp_regions x) as [Hn|[Hhi|[Hlo|[Hlo Hhi]]]].
  - destruct x; try discriminate Hn. rewrite quantize_nan.
    split; intros _; lia.
  - rewrite (quantize_high x Hhi), (at_least_one_not_negative x Hhi).
    split; [discriminate|intros _; lia].
  - rewrite (quantize_low x Hlo), (at_most_minus_one_negative x Hlo).
    split; [intros _; lia|discriminate].
  - assert (Hq : exists q, toQ x = Some q).
    { apply lt_true in Hhi, Hlo. rewrite one_repr in Hhi.
      rewrite minus_one_repr in Hlo.
      destruct x as [s|[|]| |s m e]; cbn [toQ]; eauto;
        unfold SFcompare in Hhi, Hlo; cbv beta iota in Hhi, Hlo;
        first [discriminate Hhi | discriminate Hlo]. }
    destruct Hq as [q Hq]. split; intros Hs.
    + destruct (quantize_negative x Hf Hlo Hs Hq) as [_ Hr]. lia.
    + destruct (quantize_nonnegative x Hf Hhi Hs Hq) as [_ Hr]. lia.
Qed.

(** X3. On a buffer of samples that a [Float32Array] can hold, NaN and the
    infinities included, [float32ToInt16] never wraps around: a negative
    sample gives an integer from -32768 to 0, any other sample an integer
    from 0 to 32767, and NaN gives 0. *)
Theorem float32ToInt16_no_wraparound (buffer : Float32Array) (i : nat)
    (x : number) :
  Forall (fun y => float32 y = true) buffer ->
  nth_error buffer i = Some x ->
  exists v : Z,
    nth_error (float32ToInt16 buffer) i = Some v
    /\ (lt x zero = true -> (-32768 <= v <= 0)%Z)
    /\ (lt x zero = false -> (0 <= v <= 32767)%Z)
    /\ (isNaN x = true -> v = 0%Z).
Proof.
  intros Hall Hx. exists (quantizeSample x).
  split; [rewrite float32ToInt16_map; now apply map_nth_error|].
  assert (Hf : float32 x = true).
  { rewrite Forall_forall in Hall. apply Hall. eapply nth_error_In, Hx. }
  destruct (quantize_sign x Hf) as [Hneg Hpos].
  split; [exact Hneg|]. split; [exact Hpos|].
  intros Hn. destruct x; try discriminate Hn. apply quantize_nan.
Qed.

(** X3 on a buffer holding -infinity, -0.25, NaN and 0.75. *)
Lemma float32ToInt16_no_wraparound_witness :
  exists v : Z,
    nth_error (float32ToInt16
                 [S754_infinity true; dyadic (-1) (-2); S754_nan;
                  dyadic 3 (-2)]) 1
    = Some v
    /\ (-32768 <= v <= 0)%Z.
Proof.
  destruct (@float32ToInt16_no_wraparound
              [S754_infinity true; dyadic (-1) (-2); S754_nan; dyadic 3 (-2)]
              1 (dyadic (-1) (-2)))
    as (v & Hv & Hneg & _).
  - repeat (constructor; [vm_compute; reflexivity|]). constructor.
  - reflexivity.
  - exists v. split; [exact Hv|]. apply Hneg. vm_compute. reflexivity.
Defined.

(** ** The samples given to the WAV encoder *)

Lemma float32ToInt16_interleave (raws : list RawAudio) :
  forall gaps : list Z,
    float32ToInt16 (concat (interleave raws gaps)) = pcmLayout raws gaps.
Proof.
  induction raws as [|raw raws IH]; intros [|g gaps]; try reflexivity.
  cbn [interleave concat pcmLayout].
  rewrite float32ToInt16_map, !map_app, <- !float32ToInt16_map.
  now rewrite float32ToInt16_repeat_zero, IH.
Qed.

Lemma pcmLayout_length (raws : list RawAudio) :
  forall gaps : list Z,
    length raws = length gaps ->
    length (pcmLayout raws gaps)
    = (list_sum (map (fun raw => length (audio raw)) raws)
       + list_sum (map Z.to_nat gaps))%nat.
Proof.
  intros gaps Hlen.
  rewrite <- float32ToInt16_interleave, float32ToInt16_map, length_map.
  now apply interleave_length.
Qed.

(** X4. For an item whose sentences are all synthesized and whose buffers
    are all allocated, the samples given to the WAV encoder are, for each
    sentence in order, its audio quantized and then one zero for every
    sample of its silence; there are as many of them as the audios and the
    silences have samples. *)
Theorem wav_samples_layout (h : Host) (voice : jsstring)
    (pauseDuration : number) (itemIndex : nat) (text : jsstring)
    (raws : list RawAudio) (gaps : list Z) :
  getNodeParameter_text h itemIndex = Ok text ->
  truthy text = true ->
  silence (allocates h itemIndex SeedPause) (of_Z 22050) pauseDuration
  <> None ->
  answers h voice itemIndex 0 (segment text) raws ->
  gapLengths h pauseDuration itemIndex 0 raws gaps ->
  concatFloat32Arrays (allocates h itemIndex FlattenedAudio)
    (interleave raws gaps) <> None ->
  exists wav : WaveFile,
    synthesizeItem h voice pauseDuration itemIndex
    = (wavBuffer <- wavToBase64 h wav ;;
       Ok {| data := wavBuffer; mimeType := "audio/wav";
             fileName := "result.wav" |})
    /\ samples wav = pcmLayout raws gaps
    /\ length (samples wav)
       = (list_sum (map (fun raw => length (audio raw)) raws)
          + list_sum (map Z.to_nat gaps))%nat.
Proof.
  intros Htext Htruthy Hseed Ha Hg Hcat.
  exists (makeWav (concat (interleave raws gaps)) (lastRate raws (of_Z 22050))).
  split; [exact (@synthesizeItem_ok h voice pauseDuration itemIndex text raws
                   gaps Htext Htruthy Hseed Ha Hg Hcat)|].
  cbn [makeWav samples]. rewrite float32ToInt16_interleave.
  split; [reflexivity|]. apply pcmLayout_length.
  exact (@gapLengths_length h pauseDuration itemIndex raws 0 gaps Hg).
Qed.

(** X4 on the text of two sentences answered at 8 Hz and at 4 Hz: three
    samples, four zeros, two samples, two zeros. *)
Lemma wav_samples_layout_witness :
  exists wav : WaveFile,
    synthesizeItem Example.twoRates (lit "af_heart") (dyadic 1 (-1)) 0
    = (wavBuffer <- wavToBase64 Example.twoRates wav ;;
       Ok {| data := wavBuffer; mimeType := "audio/wav";
             fileName := "result.wav" |})
    /\ samples wav
       = [16383; 16383; 16383; 0; 0; 0; 0; 16383; 16383; 0; 0]%Z.
Proof.
  destruct (@wav_samples_layout Example.twoRates (lit "af_heart")
              (dyadic 1 (-1)) 0 [97; 10; 98]%N
              [Example.stub 3 8; Example.stub 2 4] [4%Z; 2%Z])
    as (wav & Hsyn & Hsamples & _).
  - reflexivity.
  - reflexivity.
  - vm_compute. discriminate.
  - vm_compute. auto.
  - repeat (split; [apply gapLength_intro;
                    [vm_compute; reflexivity | lia | reflexivity]|]).
    exact I.
  - apply concatFloat32Arrays_grants. vm_compute. reflexivity.
  - exists wav. split; [exact Hsyn|]. rewrite Hsamples.
    vm_compute. reflexivity.
Defined.

(** ** A pause of zero *)

Lemma noPause_ToIndex (r p : number) :
  noPause p = true -> ToIndex (mul r p) = Some 0%Z.
Proof.
  intros Hp. destruct p as [sp| | |]; try discriminate Hp;
    destruct r as [sr|sr| |sr mr er]; reflexivity.
Qed.

Lemma noPause_silence (grant : Z -> bool) (r p : number) :
  noPause p = true -> silence grant r p = Some [].
Proof.
  intros Hp. unfold silence, Float32Array_new.
  now rewrite (noPause_ToIndex r p Hp).
Qed.

(** X5. With a pause duration of zero (or NaN) no silence is inserted and
    no allocation of a silence can fail, whatever the sampling rates the
    engine reports and whatever it grants: when the engine grants the
    assembled buffer, the assembled samples are the audios of the
    sentences back to back, tagged with the rate of the last answer; when
    it refuses it, a RangeError is raised. *)
Theorem no_pause_back_to_back (h : Host) (voice : jsstring)
    (pauseDuration : number) (itemIndex : nat) (text : jsstring)
    (raws : list RawAudio) :
  noPause pauseDuration = true ->
  answers h voice itemIndex 0 (segment text) raws ->
  assemble h voice pauseDuration itemIndex text
  = if granted (allocates h itemIndex FlattenedAudio)
         (Z.of_nat (length (concat (map audio raws))))
    then Ok (concat (map audio raws), lastRate raws (of_Z 22050))
    else Throw RangeError.
Proof.
  intros Hp Ha. apply assemble_no_gap.
  - now rewrite (noPause_silence _ (of_Z 22050) pauseDuration Hp).
  - exact Ha.
  - clear Ha. induction raws as [|raw raws IH]; constructor; [|exact IH].
    exact (noPause_ToIndex (sampling_rate raw) pauseDuration Hp).
Qed.

(** X5 on the text ["Hello\nWorld"] with a pause of zero: 2000 samples. *)
Lemma no_pause_back_to_back_witness :
  exists flattenedAudio,
    assemble Example.endToEnd (lit "af_heart") zero 0 Example.helloWorld
    = Ok (flattenedAudio, of_Z 22050)
    /\ Z.of_nat (length flattenedAudio) = 2000%Z.
Proof.
  exists (concat (map audio [Example.stub 1000 22050; Example.stub 1000 22050])).
  split; [|vm_compute; reflexivity].
  rewrite (@no_pause_back_to_back Example.endToEnd (lit "af_heart") zero 0
             Example.helloWorld
             [Example.stub 1000 22050; Example.stub 1000 22050]).
  - vm_compute. reflexivity.
  - reflexivity.
  - vm_compute. auto.
Defined.

(** ** Segmentation of texts laid end to end *)

Lemma split_app_newline (a b : jsstring) :
  split (a ++ newline :: b) = split a ++ split b.
Proof.
  induction a as [|c a IH]; [reflexivity|].
  cbn [app split]. rewrite IH.
  destruct (N.eqb c newline); [reflexivity|].
  pose proof (split_not_nil a) as Hne.
  destruct (split a) as [|l ls]; [now elim Hne|reflexivity].
Qed.

Lemma split_no_newline_line (l : jsstring) :
  ~ In newline l -> split l = [l].
Proof.
  induction l as [|c l IH]; intros Hn; [reflexivity|].
  cbn [split]. destruct (N.eqb c newline) eqn:Ec.
  - apply N.eqb_eq in Ec. elim Hn. now left.
  - rewrite IH; [reflexivity|]. intros H. apply Hn. now right.
Qed.

Lemma split_join_lines (lines : list jsstring) :
  lines <> [] -> Forall (fun l => ~ In newline l) lines ->
  split (join lines) = lines.
Proof.
  induction lines as [|l rest IH]; intros Hne Hall; [now elim Hne|].
  inversion Hall as [|? ? Hl Hrest]; subst.
  destruct rest as [|l2 rest].
  - cbn [join]. now apply split_no_newline_line.
  - change (join (l :: l2 :: rest)) with (l ++ newline :: join (l2 :: rest)).
    rewrite split_app_newline, (split_no_newline_line l Hl).
    rewrite IH; [reflexivity|discriminate|exact Hrest].
Qed.

Lemma segment_split (text : jsstring) :
  Forall (fun l => ~ In newline l) (segment text).
Proof.
  apply Forall_forall. intros e He. unfold segment in He.
  apply filter_In in He. destruct He as [Hin _].
  pose proof (split_no_newline text) as Hall.
  rewrite Forall_forall in Hall. now apply Hall.
Qed.

(** X6. The sentences of two texts joined by a newline are the sentences
    of the first followed by the sentences of the second; and a text
    without newline is one sentence, itself, unless it is blank, in which
    case it has none. *)
Theorem segment_app_newline (a b : jsstring) :
  segment (a ++ newline :: b) = segment a ++ segment b
  /\ (~ In newline a ->
      segment a = if blank a then [] else [a]).
Proof.
  split.
  - unfold segment. rewrite split_app_newline. apply filter_app.
  - intros Hn. rewrite segment_filter, (split_no_newline_line a Hn).
    cbn [filter]. now destruct (blank a).
Qed.

(** X6 on ["a"] and [" b\n c"]. *)
Lemma segment_app_newline_witness :
  segment (lit "a" ++ newline :: (lit " b" ++ newline :: lit " c"))
  = [lit "a"; lit " b"; lit " c"].
Proof.
  rewrite (proj1 (segment_app_newline (lit "a")
                    (lit " b" ++ newline :: lit " c"))).
  rewrite (proj1 (segment_app_newline (lit " b") (lit " c"))).
  destruct (segment_app_newline (lit "a") []) as [_ Ha].
  rewrite Ha; [|vm_compute; intros [H|[]]; discriminate H].
  vm_compute. reflexivity.
Defined.

Lemma filter_idem {A : Type} (f : A -> bool) (l : list A) :
  filter f (filter f l) = filter f l.
Proof.
  induction l as [|x l IH]; [reflexivity|].
  cbn [filter]. destruct (f x) eqn:Hx; [|exact IH].
  cbn [filter]. now rewrite Hx, IH.
Qed.

(** X7. Segmentation is stable: the sentences of a text, written one per
    line, are segmented into the same sentences. *)
Theorem segment_join_segment (text : jsstring) :
  segment (join (segment text)) = segment text.
Proof.
  destruct (segment text) as [|l rest] eqn:Hseg; [reflexivity|].
  rewrite <- Hseg. rewrite (segment_filter (join (segment text))).
  rewrite split_join_lines.
  - rewrite (segment_filter text). apply filter_idem.
  - rewrite Hseg. discriminate.
  - apply segment_split.
Qed.

(** ** A sentence that cannot be synthesized *)

(** X8. When the engine throws on a sentence, after it has answered the
    sentences before, the item fails with the error of the engine, and
    when the silence that follows a sentence cannot be allocated the item
    fails with a RangeError: no audio is produced from the sentences
    already synthesized.  On a host that does not continue on failure the
    run throws this error, wrapped with the index of the item. *)
Theorem sentence_failure_fails_item (h : Host) (voice : jsstring)
    (pauseDuration : number) (s : LoopState) (it : Item) (text : jsstring)
    (pre post : list jsstring) (sentence : jsstring)
    (raws : list RawAudio) (gaps : list Z) :
  nth_error (items s) (itemIndex s) = Some it ->
  getNodeParameter_text h (itemIndex s) = Ok text ->
  truthy text = true ->
  silence (allocates h (itemIndex s) SeedPause) (of_Z 22050) pauseDuration
  <> None ->
  segment text = pre ++ sentence :: post ->
  answers h voice (itemIndex s) 0 pre raws ->
  gapLengths h pauseDuration (itemIndex s) 0 raws gaps ->
  (forall e,
      generate h (itemIndex s) (length pre) sentence voice = Throw e ->
      synthesizeItem h voice pauseDuration (itemIndex s) = Throw e
      /\ (continueOnFail h = false ->
          loopStep h voice pauseDuration s
          = Abort (rethrow e (itemIndex s))))
  /\ (forall raw,
        generate h (itemIndex s) (length pre) sentence voice = Ok raw ->
        silence (allocates h (itemIndex s) (SentencePause (length pre)))
          (sampling_rate raw) pauseDuration = None ->
        synthesizeItem h voice pauseDuration (itemIndex s) = Throw RangeError
        /\ (continueOnFail h = false ->
            loopStep h voice pauseDuration s
            = Abort (NodeOperationError Inherited (Some RangeError)
                       (Some (itemIndex s))))).
Proof.
  intros Hit Htext Htruthy Hseed Hseg Ha Hg.
  assert (Hsyn : synthesizeItem h voice pauseDuration (itemIndex s)
                 = ('(flattenedAudio, samplingRate) <-
                      ('(samplingRate, audioChunks) <-
                         sentenceLoop h voice pauseDuration (itemIndex s)
                           (length pre) (sentence :: post)
                           (lastRate raws (of_Z 22050))
                           (interleave raws gaps) ;;
                       flattenedAudio <-
                         orRangeError
                           (concatFloat32Arrays
                              (allocates h (itemIndex s) FlattenedAudio)
                              audioChunks) ;;
                       Ok (flattenedAudio, samplingRate)) ;;
                    wavBuffer <-
                      wavToBase64 h (makeWav flattenedAudio samplingRate) ;;
                    Ok {| data := wavBuffer; mimeType := "audio/wav";
                          fileName := "result.wav" |})).
  { unfold synthesizeItem. rewrite Htext. cbn [bind]. rewrite Htruthy.
    cbn [negb]. unfold assemble.
    destruct (silence (allocates h (itemIndex s) SeedPause) (of_Z 22050)
                pauseDuration); [|now elim Hseed].
    cbn [orRangeError bind]. rewrite Hseg.
    rewrite (@sentenceLoop_prefix h voice pauseDuration (itemIndex s) pre 0
               raws gaps (sentence :: post) (of_Z 22050) [] Ha Hg).
    reflexivity. }
  split.
  - intros e Hgen.
    assert (Hthrow : synthesizeItem h voice pauseDuration (itemIndex s)
                     = Throw e).
    { rewrite Hsyn. cbn [sentenceLoop]. now rewrite Hgen. }
    split; [exact Hthrow|]. intros Hc.
    exact (@loopStep_rethrow h voice pauseDuration s it e Hc Hit Hthrow).
  - intros raw Hgen Hsil.
    assert (Hthrow : synthesizeItem h voice pauseDuration (itemIndex s)
                     = Throw RangeError).
    { rewrite Hsyn. cbn [sentenceLoop]. rewrite Hgen. cbn [bind].
      now rewrite Hsil. }
    split; [exact Hthrow|]. intros Hc.
    exact (@loopStep_rethrow h voice pauseDuration s it RangeError
             Hc Hit Hthrow).
Qed.

(** X8 on a text of three sentences, the second of which makes the engine
    throw. *)
Lemma sentence_failure_fails_item_witness :
  loopStep Scenario.secondSentenceFails (lit "af_heart") (dyadic 1 (-1))
    {| items := [Example.item 0]; heap := [[]]; itemIndex := 0 |}
  = Abort (NodeOperationError Inherited (Some (ForeignError 3))
             (Some 0%nat)).
Proof.
  destruct (@sentence_failure_fails_item Scenario.secondSentenceFails
              (lit "af_heart") (dyadic 1 (-1))
              {| items := [Example.item 0]; heap := [[]]; itemIndex := 0 |}
              (Example.item 0) [97; 10; 98; 10; 99]%N
              [[97%N]] [[99%N]] [98%N] [Example.stub 3 8] [4%Z])
    as [Hthrow _].
  - reflexivity.
  - reflexivity.
  - reflexivity.
  - vm_compute. discriminate.
  - vm_compute. reflexivity.
  - vm_compute. auto.
  - repeat (split; [apply gapLength_intro;
                    [vm_compute; reflexivity | lia | reflexivity]|]).
    exact I.
  - exact (proj2 (Hthrow (ForeignError 3) eq_refl) eq_refl).
Defined.

(** ** Runs of the loop over the items *)

Lemma iterate_succ_r (h : Host) (voice : jsstring) (pauseDuration : number)
    (n : nat) :
  forall s : LoopState,
    iterate h voice pauseDuration (S n) s
    = match iterate h voice pauseDuration n s with
      | Continue s' => loopStep h voice pauseDuration s'
      | ended => ended
      end.
Proof.
  induction n as [|n IH]; intros s.
  - cbn [iterate]. now destruct (loopStep h voice pauseDuration s).
  - change (iterate h voice pauseDuration (S (S n)) s)
      with (match loopStep h voice pauseDuration s with
            | Continue s' => iterate h voice pauseDuration (S n) s'
            | ended => ended
            end).
    cbn [iterate] in IH |- *.
    destruct (loopStep h voice pauseDuration s) as [s1| |]; try reflexivity.
    apply IH.
Qed.

(** The run from a state reached after [n] iterations. *)
Lemma runLoop_after (h : Host) (voice : jsstring) (pauseDuration : number)
    (n : nat) :
  forall (s s' : LoopState) (fuel : nat),
    iterate h voice pauseDuration n s = Continue s' ->
    (n <= fuel)%nat ->
    runLoop h voice pauseDuration fuel s
    = runLoop h voice pauseDuration (fuel - n) s'.
Proof.
  induction n as [|n IH]; intros s s' fuel Hit Hle.
  - cbn [iterate] in Hit. injection Hit as <-. now rewrite Nat.sub_0_r.
  - cbn [iterate] in Hit.
    destruct (loopStep h voice pauseDuration s) as [s1| |] eqn:Hstep;
      try discriminate Hit.
    destruct fuel as [|fuel]; [lia|].
    cbn [runLoop]. rewrite Hstep. cbn [Nat.sub].
    apply IH; [exact Hit|lia].
Qed.

(** As long as the items succeed, each one gains its audio in place and
    the others are left as they are. *)
Lemma success_prefix (h : Host) (voice : jsstring) (pauseDuration : number)
    (items0 : list Item) (hp : Heap) (n : nat) :
  (n <= length items0)%nat ->
  (forall k, (k < n)%nat -> fails h voice pauseDuration k = false) ->
  exists s',
    iterate h voice pauseDuration n
      {| items := items0; heap := hp; itemIndex := 0 |}
    = Continue s'
    /\ itemIndex s' = n
    /\ length (items s') = length items0
    /\ (forall k, (n <= k)%nat -> nth_error (items s') k = nth_error items0 k)
    /\ (forall k it, (k < n)%nat -> nth_error items0 k = Some it ->
          exists b,
            synthesizeItem h voice pauseDuration k = Ok b
            /\ nth_error (items s') k = Some (attachAudio it b)).
Proof.
  induction n as [|n IH]; intros Hle Hok.
  - eexists. split; [reflexivity|]. cbn [items itemIndex].
    repeat split; auto. intros k it Hk. lia.
  - destruct IH as (s1 & Hit & Hi & Hl & Hrest & Hdone); [lia|auto|].
    assert (Hn : exists it, nth_error items0 n = Some it).
    { destruct (nth_error items0 n) eqn:E; [eauto|].
      apply nth_error_None in E. lia. }
    destruct Hn as [it Hn].
    assert (Hsyn : exists b, synthesizeItem h voice pauseDuration n = Ok b).
    { specialize (Hok n (Nat.lt_succ_diag_r n)). unfold fails in Hok.
      destruct (synthesizeItem h voice pauseDuration n); [eauto|discriminate]. }
    destruct Hsyn as [b Hsyn].
    assert (Hit1 : nth_error (items s1) (itemIndex s1) = Some it)
      by (rewrite Hi, Hrest; [exact Hn|lia]).
    rewrite <- Hi in Hsyn.
    pose proof (@loopStep_success h voice pauseDuration s1 it b Hit1 Hsyn)
      as Hstep.
    eexists. split; [rewrite iterate_succ_r, Hit; exact Hstep|].
    cbn [items itemIndex]. rewrite Hi in *.
    split; [reflexivity|]. split; [now rewrite array_store_length|].
    split.
    + intros k Hk. rewrite array_store_other by lia. apply Hrest. lia.
    + intros k it' Hk Hk'. destruct (Nat.eq_dec k n) as [->|Hne].
      * exists b. split; [exact Hsyn|].
        assert (it' = it) by congruence. subst it'.
        exact (array_store_same _ _ _ Hit1).
      * destruct (Hdone k it') as (b' & Hb' & Hnth); [lia|exact Hk'|].
        exists b'. split; [exact Hb'|].
        rewrite array_store_other by lia. exact Hnth.
Qed.

(** X9. When every input item can be processed, the run returns after as
    many iterations as there are items, whether the host continues on
    failure or not: the collection has the same length, and each item is
    the input item with its audio attached. *)
Theorem all_items_succeed (h : Host) (voice : jsstring)
    (pauseDuration : number) (items0 : list Item) (hp : Heap) (fuel : nat) :
  (forall k, (k < length items0)%nat ->
             fails h voice pauseDuration k = false) ->
  (length items0 <= fuel)%nat ->
  exists (its : list Item) (hp' : Heap),
    runLoop h voice pauseDuration fuel
      {| items := items0; heap := hp; itemIndex := 0 |}
    = Returned its hp'
    /\ length its = length items0
    /\ forall k it, nth_error items0 k = Some it ->
         exists b,
           synthesizeItem h voice pauseDuration k = Ok b
           /\ nth_error its k = Some (attachAudio it b).
Proof.
  intros Hok Hfuel.
  destruct (@success_prefix h voice pauseDuration items0 hp (length items0)
              (Nat.le_refl _) Hok) as (s' & Hit & Hi & Hl & _ & Hdone).
  rewrite (@runLoop_after h voice pauseDuration (length items0) _ s' fuel
             Hit Hfuel).
  assert (Hexit : loopStep h voice pauseDuration s'
                  = Exit (items s') (heap s')).
  { unfold loopStep.
    replace (nth_error (items s') (itemIndex s')) with (@None Item);
      [reflexivity|].
    symmetry. apply nth_error_None. lia. }
  exists (items s'), (heap s').
  split; [destruct (fuel - length items0)%nat; cbn [runLoop];
          now rewrite Hexit|].
  split; [exact Hl|].
  intros k it Hk. apply Hdone; [|exact Hk].
  apply nth_error_Some. congruence.
Qed.

(** X9 on the three items of the example, for an engine that answers
    every call. *)
Lemma all_items_succeed_witness :
  exists its hp',
    runLoop Example.endToEnd (lit "af_heart") zero 3
      {| items := Scenario.threeInputItems; heap := Example.threeHeap;
         itemIndex := 0 |}
    = Returned its hp'
    /\ length its = 3%nat.
Proof.
  destruct (@all_items_succeed Example.endToEnd (lit "af_heart") zero
              Scenario.threeInputItems Example.threeHeap 3)
    as (its & hp' & Hrun & Hlen & _).
  - intros k _. vm_compute. reflexivity.
  - apply Nat.le_refl.
  - exists its, hp'. split; [exact Hrun | exact Hlen].
Defined.

(** X10. On a host that does not continue on failure, the run stops at
    the first item that fails: it throws a [NodeOperationError] that
    carries the index of this item (the error itself when it already is
    one, a wrapper around it otherwise), the items before it have been
    processed, and the items after it are never reached. *)
Theorem first_failure_aborts (h : Host) (voice : jsstring)
    (pauseDuration : number) (items0 : list Item) (hp : Heap)
    (k fuel : nat) (e : exn) :
  continueOnFail h = false ->
  (k < length items0)%nat ->
  (forall j, (j < k)%nat -> fails h voice pauseDuration j = false) ->
  synthesizeItem h voice pauseDuration k = Throw e ->
  (k <= fuel)%nat ->
  runLoop h voice pauseDuration fuel
    {| items := items0; heap := hp; itemIndex := 0 |}
  = Thrown (rethrow e k)
  /\ exists message cause,
       rethrow e k = NodeOperationError message cause (Some k).
Proof.
  intros Hc Hk Hok Hsyn Hfuel. split.
  - destruct (@success_prefix h voice pauseDuration items0 hp k
                (Nat.lt_le_incl _ _ Hk) Hok)
      as (s' & Hit & Hi & Hl & Hrest & _).
    rewrite (@runLoop_after h voice pauseDuration k _ s' fuel Hit Hfuel).
    assert (Hn : exists it, nth_error (items s') (itemIndex s') = Some it).
    { destruct (nth_error (items s') (itemIndex s')) eqn:E; [eauto|].
      apply nth_error_None in E. lia. }
    destruct Hn as [it Hn]. rewrite <- Hi in Hsyn.
    pose proof (@loopStep_rethrow h voice pauseDuration s' it e Hc Hn Hsyn)
      as Hstep.
    rewrite Hi in Hstep.
    destruct (fuel - k)%nat; cbn [runLoop]; now rewrite Hstep.
  - destruct e; cbn [rethrow]; eauto.
Qed.

(** X10 on the three items of the example, on a host that does not
    continue on failure: the failure of the second item ends the run. *)
Lemma first_failure_aborts_witness :
  runLoop Scenario.threeItemsFailFast (lit "af_heart") (dyadic 1 (-1)) 5
    {| items := Scenario.threeInputItems; heap := Example.threeHeap;
       itemIndex := 0 |}
  = Thrown (NodeOperationError Inherited (Some (ForeignError 7))
              (Some 1%nat)).
Proof.
  apply (@first_failure_aborts Scenario.threeItemsFailFast (lit "af_heart")
           (dyadic 1 (-1)) Scenario.threeInputItems Example.threeHeap
           1 5 (ForeignError 7)).
  - reflexivity.
  - repeat constructor.
  - intros j Hj. assert (j = 0%nat) as -> by lia. vm_compute. reflexivity.
  - vm_compute. reflexivity.
  - repeat constructor.
Defined.

Lemma failures_succ (h : Host) (voice : jsstring) (pauseDuration : number)
    (n : nat) :
  failures h voice pauseDuration (S n)
  = (failures h voice pauseDuration n
     + if fails h voice pauseDuration n then 1 else 0)%nat.
Proof.
  unfold failures. rewrite seq_S, filter_app, length_app. cbn [Nat.add filter].
  now destruct (fails h voice pauseDuration n).
Qed.

(** After [n] iterations the collection has grown by one item for each
    index below [n] that failed. *)
Lemma iterate_length (h : Host) (voice : jsstring) (pauseDuration : number)
    (items0 : list Item) (hp : Heap) (n : nat) :
  forall s' : LoopState,
    iterate h voice pauseDuration n
      {| items := items0; heap := hp; itemIndex := 0 |}
    = Continue s' ->
    length (items s')
    = (length items0 + failures h voice pauseDuration n)%nat.
Proof.
  induction n as [|n IH]; intros s' Hit.
  - cbn [iterate] in Hit. injection Hit as <-. cbn [items].
    unfold failures. cbn. lia.
  - rewrite iterate_succ_r in Hit.
    destruct (iterate h voice pauseDuration n
                {| items := items0; heap := hp; itemIndex := 0 |})
      as [s1| |] eqn:H1; try discriminate Hit.
    specialize (IH s1 eq_refl).
    destruct (@iterate_index h voice pauseDuration n _ s1 H1) as [Hi _].
    cbn [itemIndex Nat.add] in Hi.
    rewrite failures_succ. unfold fails.
    unfold loopStep in Hit. cbv zeta in Hit. rewrite Hi in Hit.
    destruct (nth_error (items s1) n) as [it|]; [|discriminate Hit].
    destruct (synthesizeItem h voice pauseDuration n) as [b|e].
    + injection Hit as <-. cbn [items]. rewrite array_store_length. lia.
    + destruct (continueOnFail h); [|discriminate Hit].
      destruct (errorItem h e n); [|discriminate Hit].
      injection Hit as <-. cbn [items]. rewrite length_app. simpl. lia.
Qed.

(** A loop that has ended normally did so on the test that follows its
    last iteration. *)
Lemma exit_last (h : Host) (voice : jsstring) (pauseDuration : number)
    (m : nat) :
  forall (s : LoopState) (its : list Item) (hp : Heap),
    iterate h voice pauseDuration m s = Exit its hp ->
    exists n s',
      iterate h voice pauseDuration n s = Continue s'
      /\ loopStep h voice pauseDuration s' = Exit its hp.
Proof.
  induction m as [|m IH]; intros s its hp H; [discriminate H|].
  rewrite iterate_succ_r in H.
  destruct (iterate h voice pauseDuration m s) as [s1|its1 hp1|] eqn:H1;
    try discriminate H.
  - exists m, s1. auto.
  - injection H as -> ->. exact (IH s its hp H1).
Qed.

(** X11. Whatever the host, the collection that a run returns has one more
    item than the input for every index, of an input item or of an
    appended one, whose processing failed. *)
Theorem returned_length_counts_failures (h : Host) (voice : jsstring)
    (pauseDuration : number) (items0 : list Item) (hp : Heap) (fuel : nat)
    (its : list Item) (hp' : Heap) :
  runLoop h voice pauseDuration fuel
    {| items := items0; heap := hp; itemIndex := 0 |}
  = Returned its hp' ->
  length its
  = (length items0 + failures h voice pauseDuration (length its))%nat.
Proof.
  intros Hrun. rewrite runLoop_iterate in Hrun.
  destruct (iterate h voice pauseDuration (S fuel)
              {| items := items0; heap := hp; itemIndex := 0 |})
    as [s1|its1 hp1|e] eqn:Hit; try discriminate Hrun.
  injection Hrun as -> ->.
  destruct (exit_last _ _ _ _ _ Hit) as (n & s' & Hn & Hexit).
  destruct (loopStep_exit_items _ _ _ _ Hexit) as (-> & _ & Hle).
  destruct (@iterate_index h voice pauseDuration n _ s' Hn) as [Hi _].
  cbn [itemIndex Nat.add] in Hi.
  pose proof (@iterate_length h voice pauseDuration items0 hp n s' Hn) as Hl.
  assert (Hn' : (n <= length (items s'))%nat).
  { destruct n as [|n]; [lia|].
    rewrite iterate_succ_r in Hn.
    destruct (iterate h voice pauseDuration n
                {| items := items0; heap := hp; itemIndex := 0 |})
      as [s0| |] eqn:H0; try discriminate Hn.
    destruct (loopStep_continue _ _ _ _ Hn) as (Hi' & Hlt & Hl').
    lia. }
  assert (n = length (items s')) by lia. congruence.
Qed.

(** X11 on the three items of the example, of which the second fails:
    four items are returned. *)
Lemma returned_length_counts_failures_witness :
  exists its hp',
    runLoop Example.threeItems (lit "af_heart") (dyadic 1 (-1)) 4
      {| items := Scenario.threeInputItems; heap := Example.threeHeap;
         itemIndex := 0 |}
    = Returned its hp'
    /\ length its
       = (3 + failures Example.threeItems (lit "af_heart") (dyadic 1 (-1))
                (length its))%nat.
Proof.
  assert (H : exists its hp',
             runLoop Example.threeItems (lit "af_heart") (dyadic 1 (-1)) 4
               {| items := Scenario.threeInputItems;
                  heap := Example.threeHeap; itemIndex := 0 |}
             = Returned its hp')
    by (eexists; eexists; vm_compute; reflexivity).
  destruct H as (its & hp' & Hrun).
  exists its, hp'. split; [exact Hrun|].
  exact (@returned_length_counts_failures Example.threeItems
           (lit "af_heart") (dyadic 1 (-1)) Scenario.threeInputItems
           Example.threeHeap 4 its hp' Hrun).
Defined.

(** ** What a success writes into an item *)

Lemma getProperty_set_same (obj : JsonObject) (key : string) (v : JsonValue) :
  getProperty (setProperty obj key v) key = Some v.
Proof.
  induction obj as [|[k w] rest IH]; cbn [setProperty getProperty].
  - now rewrite String.eqb_refl.
  - destruct (String.eqb k key) eqn:E; cbn [getProperty]; rewrite E;
      [reflexivity|exact IH].
Qed.

Lemma getProperty_set_other (obj : JsonObject) (key key' : string)
    (v : JsonValue) :
  key' <> key ->
  getProperty (setProperty obj key v) key' = getProperty obj key'.
Proof.
  intros Hne. induction obj as [|[k w] rest IH]; cbn [setProperty getProperty].
  - apply String.eqb_neq in Hne. rewrite String.eqb_sym in Hne.
    now rewrite Hne.
  - destruct (String.eqb k key) eqn:E; cbn [getProperty].
    + apply String.eqb_eq in E. subst k.
      apply String.eqb_neq in Hne. rewrite String.eqb_sym in Hne.
      now rewrite Hne.
    + destruct (String.eqb k key'); [reflexivity|exact IH].
Qed.

Lemma heap_update_same (hp : Heap) (f : JsonObject -> JsonObject) :
  forall (ref : nat) (obj : JsonObject),
    nth_error hp ref = Some obj ->
    nth_error (heap_update hp ref f) ref = Some (f obj).
Proof.
  induction hp as [|o hp IH]; intros [|r] obj H; try discriminate H.
  - cbn in H |- *. now injection H as ->.
  - cbn [heap_update nth_error] in *. now apply IH.
Qed.

Lemma heap_update_other (hp : Heap) (f : JsonObject -> JsonObject) :
  forall ref ref' : nat,
    ref' <> ref ->
    nth_error (heap_update hp ref f) ref' = nth_error hp ref'.
Proof.
  induction hp as [|o hp IH]; intros [|r] [|r'] Hne; try reflexivity.
  - now elim Hne.
  - cbn [heap_update nth_error]. apply IH. congruence.
Qed.

(** What is attached is always a WAV file named ["result.wav"]. *)
Lemma synthesizeItem_attachment (h : Host) (voice : jsstring)
    (pauseDuration : number) (i : nat) (b : BinaryData) :
  synthesizeItem h voice pauseDuration i = Ok b ->
  mimeType b = "audio/wav"%string /\ fileName b = "result.wav"%string.
Proof.
  unfold synthesizeItem. intros H.
  destruct (getNodeParameter_text h i) as [text|]; [|discriminate H].
  cbn [bind] in H. destruct (negb (truthy text)); [discriminate H|].
  destruct (assemble h voice pauseDuration i text) as [[flat rate]|];
    [|discriminate H].
  cbn [bind] in H.
  destruct (wavToBase64 h (makeWav flat rate)); [|discriminate H].
  cbn [bind] in H. injection H as <-. split; reflexivity.
Qed.

(** X12. An item that is processed keeps its [json] object, its [error]
    and its [pairedItem]; its [binary] is replaced by a single attachment,
    ["audio"], of type ["audio/wav"] and name ["result.wav"], whatever
    attachments it had; its [json] object gains the property [ttsStatus],
    set to ["success"], and keeps the value of every other property; and
    no other [json] object is changed. *)
Theorem success_marks_item (h : Host) (voice : jsstring)
    (pauseDuration : number) (s : LoopState) (it : Item) (b : BinaryData)
    (obj : JsonObject) :
  nth_error (items s) (itemIndex s) = Some it ->
  synthesizeItem h voice pauseDuration (itemIndex s) = Ok b ->
  nth_error (heap s) (json it) = Some obj ->
  exists (s' : LoopState) (it' : Item) (obj' : JsonObject),
    loopStep h voice pauseDuration s = Continue s'
    /\ nth_error (items s') (itemIndex s) = Some it'
    /\ json it' = json it /\ error it' = error it
    /\ pairedItem it' = pairedItem it
    /\ binary it' = Some [("audio"%string, b)]
    /\ mimeType b = "audio/wav"%string /\ fileName b = "result.wav"%string
    /\ nth_error (heap s') (json it) = Some obj'
    /\ getProperty obj' "ttsStatus" = Some (JString (lit "success"))
    /\ (forall key, key <> "ttsStatus"%string ->
                    getProperty obj' key = getProperty obj key)
    /\ (forall ref, ref <> json it ->
                    nth_error (heap s') ref = nth_error (heap s) ref).
Proof.
  intros Hit Hsyn Hobj.
  destruct (synthesizeItem_attachment _ _ _ _ Hsyn) as [Hm Hf].
  eexists. exists (attachAudio it b), (markSuccess obj).
  split; [exact (@loopStep_success h voice pauseDuration s it b Hit Hsyn)|].
  cbn [items heap].
  split; [exact (array_store_same _ _ _ Hit)|].
  repeat (split; [reflexivity|]).
  split; [exact Hm|]. split; [exact Hf|].
  split; [exact (heap_update_same _ _ _ Hobj)|].
  split; [apply getProperty_set_same|].
  split; [intros key Hkey; now apply getProperty_set_other|].
  intros ref Href. now apply heap_update_other.
Qed.

(** X12 on the first of the three items of the example: its [json] keeps
    its [text]. *)
Lemma success_marks_item_witness :
  exists s' obj',
    loopStep Example.threeItems (lit "af_heart") (dyadic 1 (-1))
      {| items := Scenario.threeInputItems; heap := Example.threeHeap;
         itemIndex := 0 |}
    = Continue s'
    /\ nth_error (heap s') 0 = Some obj'
    /\ getProperty obj' "text" = Some (JString (lit "one")).
Proof.
  destruct (@success_marks_item Example.threeItems (lit "af_heart")
              (dyadic 1 (-1))
              {| items := Scenario.threeInputItems;
                 heap := Example.threeHeap; itemIndex := 0 |}
              (Example.item 0) Example.helloAudio
              [("text"%string, JString (lit "one"))])
    as (s' & it' & obj' & Hstep & _ & _ & _ & _ & _ & _ & _ & Hobj & _
        & Hkeep & _).
  - reflexivity.
  - vm_compute. reflexivity.
  - reflexivity.
  - exists s', obj'. split; [exact Hstep|]. split; [exact Hobj|].
    rewrite Hkeep; [reflexivity|discriminate].
Defined.

(** ** The order of the quantized samples *)

Lemma lt_minus_one_of_exponent (m : positive) (e : Z) :
  (e <= -53)%Z -> lt (of_Z (-1)) (S754_finite true m e) = true.
Proof.
  intros He. apply lt_true. rewrite minus_one_repr.
  unfold SFcompare. cbv beta iota.
  destruct (Z.compare_spec (-52) e) as [H|H|H]; try lia. reflexivity.
Qed.

Lemma lt_one_of_exponent (m : positive) (e : Z) :
  (e <= -53)%Z -> lt (S754_finite false m e) (of_Z 1) = true.
Proof.
  intros He. apply lt_true. rewrite one_repr.
  unfold SFcompare. cbv beta iota.
  destruct (Z.compare_spec e (-52)) as [H|H|H]; try lia. reflexivity.
Qed.

Lemma quot_scale (a k : Z) :
  (0 <= k <= 201)%Z ->
  Z.quot a (2 ^ k) = Z.quot (a * 2 ^ (201 - k)) (2 ^ 201).
Proof.
  intros Hk. replace 201%Z with (k + (201 - k))%Z at 2 by lia.
  rewrite Z.pow_add_r by lia.
  symmetry. apply Z.quot_mul_cancel_r;
    apply Z.neq_sym, Z.lt_neq, Z.pow_pos_nonneg; lia.
Qed.

(** The quantized value of a sample strictly between -1 and 1, on a common
    denominator. *)
Lemma quantize_scaled (s : bool) (m : positive) (e : Z) :
  float32 (S754_finite s m e) = true -> (e <= -53)%Z ->
  quantizeSample (S754_finite s m e)
  = Z.quot (cond_Zopp s (Z.pos m) * (if s then 32768 else 32767)
            * 2 ^ (201 + e))
      (2 ^ 201).
Proof.
  intros Hf He.
  destruct (float32_finite _ _ _ Hf) as (Hd & _ & Hr).
  destruct e as [|p|k]; try lia.
  assert (Hq : toQ (S754_finite s m (Z.neg k))
               = Some (Qmake (cond_Zopp s (Z.pos m)) (2 ^ k))) by reflexivity.
  assert (Hk : (0 <= Z.pos k <= 201)%Z) by lia.
  destruct s.
  - destruct (@quantize_negative _ _ Hf (lt_minus_one_of_exponent m He)
                (lt_zero_sign true m (Z.neg k)) Hq) as [-> _].
    unfold Qtruncate, Qmult, inject_Z. cbn [Qnum Qden].
    rewrite Pos.mul_1_r, Pos2Z.inj_pow, (quot_scale _ Hk).
    replace (201 - Z.pos k)%Z with (201 + Z.neg k)%Z by lia. reflexivity.
  - destruct (@quantize_nonnegative _ _ Hf (lt_one_of_exponent m He)
                (lt_zero_sign false m (Z.neg k)) Hq) as [-> _].
    unfold Qtruncate, Qmult, inject_Z. cbn [Qnum Qden].
    rewrite Pos.mul_1_r, Pos2Z.inj_pow, (quot_scale _ Hk).
    replace (201 - Z.pos k)%Z with (201 + Z.neg k)%Z by lia. reflexivity.
Qed.

Lemma scaled_lt (m1 m2 : positive) (e1 e2 : Z) :
  Z.pos (digits2_pos m1) = 53%Z -> Z.pos (digits2_pos m2) = 53%Z ->
  (-201 <= e1 < e2)%Z ->
  (Z.pos m1 * 2 ^ (201 + e1) < Z.pos m2 * 2 ^ (201 + e2))%Z.
Proof.
  intros H1 H2 He.
  pose proof (digits2_pos_range m1) as R1. rewrite H1 in R1.
  pose proof (digits2_pos_range m2) as R2. rewrite H2 in R2.
  change (2 ^ 53)%Z with 9007199254740992%Z in *.
  change (2 ^ (53 - 1))%Z with 4503599627370496%Z in *.
  replace (201 + e2)%Z with ((201 + e1) + (e2 - e1))%Z by lia.
  rewrite (Z.pow_add_r 2 (201 + e1) (e2 - e1)) by lia.
  assert (HA : (0 < 2 ^ (201 + e1))%Z) by (apply Z.pow_pos_nonneg; lia).
  assert (HB : (2 ^ 1 <= 2 ^ (e2 - e1))%Z) by (apply Z.pow_le_mono_r; lia).
  change (2 ^ 1)%Z with 2%Z in HB.
  assert (Hm : (Z.pos m1 < Z.pos m2 * 2 ^ (e2 - e1))%Z) by nia.
  rewrite (Z.mul_comm (2 ^ (201 + e1))), Z.mul_assoc.
  apply Z.mul_lt_mono_pos_r; assumption.
Qed.

(** The order of two numbers of the same sign, on their values scaled to
    integers. *)
Lemma leb_scaled (s : bool) (m1 m2 : positive) (e1 e2 : Z) :
  Z.pos (digits2_pos m1) = 53%Z -> Z.pos (digits2_pos m2) = 53%Z ->
  (-201 <= e1)%Z -> (-201 <= e2)%Z ->
  SFleb (S754_finite s m1 e1) (S754_finite s m2 e2) = true ->
  (cond_Zopp s (Z.pos m1 * 2 ^ (201 + e1))
   <= cond_Zopp s (Z.pos m2 * 2 ^ (201 + e2)))%Z
  /\ (if s then e2 <= e1 else e1 <= e2)%Z.
Proof.
  intros H1 H2 He1 He2. unfold SFleb, SFcompare.
  destruct s; cbv beta iota; unfold cond_Zopp;
    destruct (Z.compare_spec e1 e2) as [He|He|He]; intros H;
    try discriminate H.
  - subst e2. rewrite compare_cont_Eq in H.
    destruct (Pos.compare_spec m1 m2) as [Hm|Hm|Hm]; try discriminate H.
    + subst. split; lia.
    + apply Pos2Z.pos_lt_pos in Hm.
      assert ((0 < 2 ^ (201 + e1))%Z) by (apply Z.pow_pos_nonneg; lia).
      split; [nia|lia].
  - pose proof (@scaled_lt m2 m1 e2 e1 H2 H1). split; lia.
  - subst e2. rewrite compare_cont_Eq in H.
    destruct (Pos.compare_spec m1 m2) as [Hm|Hm|Hm]; try discriminate H.
    + subst. split; lia.
    + apply Pos2Z.pos_lt_pos in Hm.
      assert ((0 < 2 ^ (201 + e1))%Z) by (apply Z.pow_pos_nonneg; lia).
      split; [nia|lia].
  - pose proof (@scaled_lt m1 m2 e1 e2 H1 H2). split; lia.
Qed.

Lemma sign_order (x y : number) :
  lt x zero = false -> lt y zero = true -> SFleb x y = false.
Proof.
  destruct x as [[|]|[|]| |[|] mx ex], y as [[|]|[|]| |[|] my ey];
    intros Hx Hy; try discriminate Hx; try discriminate Hy; reflexivity.
Qed.

Lemma quantize_any_zero (s : bool) : quantizeSample (S754_zero s) = 0%Z.
Proof. destruct s; vm_compute; reflexivity. Qed.

(** Two samples in order, both strictly between -1 and 1 and of the same
    sign, are quantized in order. *)
Lemma quantize_monotone_inside (s : bool) (m1 m2 : positive) (e1 e2 : Z) :
  float32 (S754_finite s m1 e1) = true ->
  float32 (S754_finite s m2 e2) = true ->
  (e1 <= -53)%Z -> (e2 <= -53)%Z ->
  SFleb (S754_finite s m1 e1) (S754_finite s m2 e2) = true ->
  (quantizeSample (S754_finite s m1 e1)
   <= quantizeSample (S754_finite s m2 e2))%Z.
Proof.
  intros F1 F2 He1 He2 Hle.
  rewrite (@quantize_scaled s m1 e1 F1 He1), (@quantize_scaled s m2 e2 F2 He2).
  destruct (float32_finite _ _ _ F1) as (D1 & _ & R1).
  destruct (float32_finite _ _ _ F2) as (D2 & _ & R2).
  destruct (@leb_scaled s m1 m2 e1 e2 D1 D2) as [Hs _]; try lia;
    [exact Hle|].
  apply Z.quot_le_mono; [apply Z.pow_pos_nonneg; lia|].
  destruct s; unfold cond_Zopp in *; lia.
Qed.

(** A larger sample is never quantized to a smaller integer. *)
Lemma quantizeSample_monotone (x y : number) :
  float32 x = true -> float32 y = true ->
  SFleb x y = true ->
  (quantizeSample x <= quantizeSample y)%Z.
Proof.
  intros Fx Fy Hle.
  destruct (quantize_sign x Fx) as [Hxn Hxp].
  destruct (quantize_sign y Fy) as [Hyn Hyp].
  destruct (lt x zero) eqn:Sx, (lt y zero) eqn:Sy.
  - (* both negative *)
    specialize (Hxn eq_refl). specialize (Hyn eq_refl).
    destruct (clamp_regions x) as [Hn|[Hhi|[Hlo|[Hlo Hhi]]]].
    + destruct x; discriminate.
    + rewrite (at_least_one_not_negative x Hhi) in Sx. discriminate Sx.
    + rewrite (quantize_low x Hlo). lia.
    + destruct x as [[|]|[|]| |[|] mx ex]; try discriminate Sx;
        try discriminate Hlo.
      destruct (float32_finite _ _ _ Fx) as (Dx & _ & Rx).
      pose proof (above_minus_one_exponent mx ex Dx Hlo) as Hex.
      destruct y as [[|]|[|]| |[|] my ey]; try discriminate Sy;
        try discriminate Hle.
      destruct (float32_finite _ _ _ Fy) as (Dy & _ & Ry).
      destruct (@leb_scaled true mx my ex ey Dx Dy) as [_ Hey]; try lia;
        [exact Hle|].
      apply quantize_monotone_inside; try assumption. lia.
  - specialize (Hxn eq_refl). specialize (Hyp eq_refl). lia.
  - rewrite (sign_order x y Sx Sy) in Hle. discriminate Hle.
  - (* neither negative *)
    specialize (Hxp eq_refl). specialize (Hyp eq_refl).
    destruct (clamp_regions y) as [Hn|[Hhi|[Hlo|[Hlo Hhi]]]].
    + destruct y; try discriminate Hn.
      destruct x; discriminate Hle.
    + rewrite (quantize_high y Hhi). lia.
    + rewrite (at_most_minus_one_negative y Hlo) in Sy. discriminate Sy.
    + destruct x as [sx|[|]| |[|] mx ex]; try discriminate Sx.
      * rewrite quantize_any_zero. lia.
      * destruct y as [?|[|]| |[|] ? ?]; try discriminate Hle;
          try discriminate Hhi; discriminate Sy.
      * destruct y; discriminate Hle.
      * destruct y as [sy|[|]| |[|] my ey]; try discriminate Sy;
          try discriminate Hle; try discriminate Hhi.
        destruct (float32_finite _ _ _ Fx) as (Dx & _ & Rx).
        destruct (float32_finite _ _ _ Fy) as (Dy & _ & Ry).
        pose proof (below_one_exponent my ey Dy Hhi) as Hey.
        destruct (@leb_scaled false mx my ex ey Dx Dy) as [_ Hex]; try lia;
          [exact Hle|].
        apply quantize_monotone_inside; try assumption. lia.
Qed.

(** X13. [float32ToInt16] keeps the order of the samples: of two samples
    of a buffer that a [Float32Array] can hold, the larger one is never
    converted to the smaller integer (the infinities included; NaN is
    not comparable). *)
Theorem float32ToInt16_monotone (buffer : Float32Array) (i j : nat)
    (x y : number) :
  Forall (fun z => float32 z = true) buffer ->
  nth_error buffer i = Some x ->
  nth_error buffer j = Some y ->
  SFleb x y = true ->
  exists vx vy : Z,
    nth_error (float32ToInt16 buffer) i = Some vx
    /\ nth_error (float32ToInt16 buffer) j = Some vy
    /\ (vx <= vy)%Z.
Proof.
  intros Hall Hx Hy Hle.
  rewrite Forall_forall in Hall.
  exists (quantizeSample x), (quantizeSample y).
  rewrite float32ToInt16_map.
  split; [now apply map_nth_error|]. split; [now apply map_nth_error|].
  apply quantizeSample_monotone; [| |exact Hle]; apply Hall;
    eapply nth_error_In; eassumption.
Qed.

(** X13 on a buffer holding 0.75, -0.25 and 0.5. *)
Lemma float32ToInt16_monotone_witness :
  exists vx vy : Z,
    nth_error (float32ToInt16 [dyadic 3 (-2); dyadic (-1) (-2); dyadic 1 (-1)])
      1 = Some vx
    /\ nth_error
         (float32ToInt16 [dyadic 3 (-2); dyadic (-1) (-2); dyadic 1 (-1)])
         2 = Some vy
    /\ (vx <= vy)%Z.
Proof.
  apply (@float32ToInt16_monotone
           [dyadic 3 (-2); dyadic (-1) (-2); dyadic 1 (-1)] 1 2
           (dyadic (-1) (-2)) (dyadic 1 (-1))).
  - repeat (constructor; [vm_compute; reflexivity|]). constructor.
  - reflexivity.
  - reflexivity.
  - vm_compute. reflexivity.
Defined.

(** ** What a run leaves of the input items *)

(** A property of the loop state that every iteration keeps holds when
    the loop ends. *)
Lemma iterate_invariant (h : Host) (voice : jsstring)
    (pauseDuration : number) (P : LoopState -> Prop) :
  (forall s s', P s -> loopStep h voice pauseDuration s = Continue s' ->
                P s') ->
  forall (n : nat) (s s' : LoopState),
    P s -> iterate h voice pauseDuration n s = Continue s' -> P s'.
Proof.
  intros Hstep. induction n as [|n IH]; intros s s' Hs H;
    cbn [iterate] in H.
  - now injection H as <-.
  - destruct (loopStep h voice pauseDuration s) as [s1| |] eqn:H1;
      try discriminate H.
    exact (IH s1 s' (Hstep s s1 Hs H1) H).
Qed.

Lemma returned_invariant (h : Host) (voice : jsstring)
    (pauseDuration : number) (P : LoopState -> Prop) :
  (forall s s', P s -> loopStep h voice pauseDuration s = Continue s' ->
                P s') ->
  forall (fuel : nat) (s : LoopState) (its : list Item) (hp : Heap),
    P s ->
    runLoop h voice pauseDuration fuel s = Returned its hp ->
    exists s', P s' /\ its = items s' /\ hp = heap s'
               /\ (length (items s') <= itemIndex s')%nat.
Proof.
  intros Hstep fuel s its hp Hs Hrun. rewrite runLoop_iterate in Hrun.
  destruct (iterate h voice pauseDuration (S fuel) s)
    as [s1|its1 hp1|e] eqn:Hit; try discriminate Hrun.
  injection Hrun as -> ->.
  destruct (@exit_last h voice pauseDuration (S fuel) s its hp Hit) as (n & s' & Hn & Hexit).
  exists s'. split; [exact (@iterate_invariant h voice pauseDuration P Hstep n s s' Hs Hn)|].
  exact (@loopStep_exit_items h voice pauseDuration s' its hp Hexit).
Qed.

(** What an iteration keeps of the collection: the input items are at
    their places, with their [json] reference, [error] and [pairedItem];
    each item behind them holds an error and is paired with an index
    before its own. *)
Lemma loopStep_keeps (h : Host) (voice : jsstring) (pauseDuration : number)
    (items0 : list Item) (s s' : LoopState) :
  (length items0 <= length (items s)
   /\ forall k it', nth_error (items s) k = Some it' ->
        match nth_error items0 k with
        | Some it => json it' = json it /\ error it' = error it
                     /\ pairedItem it' = pairedItem it
        | None => exists e j, error it' = Some e /\ pairedItem it' = Some j
                              /\ j < k
        end)%nat ->
  loopStep h voice pauseDuration s = Continue s' ->
  (length items0 <= length (items s')
   /\ forall k it', nth_error (items s') k = Some it' ->
        match nth_error items0 k with
        | Some it => json it' = json it /\ error it' = error it
                     /\ pairedItem it' = pairedItem it
        | None => exists e j, error it' = Some e /\ pairedItem it' = Some j
                              /\ j < k
        end)%nat.
Proof.
  intros [Hlen Hinv] Hstep. unfold loopStep in Hstep. cbv zeta in Hstep.
  destruct (nth_error (items s) (itemIndex s)) as [it|] eqn:Hn;
    [|discriminate Hstep].
  destruct (synthesizeItem h voice pauseDuration (itemIndex s)) as [b|e].
  - injection Hstep as <-. cbn [items]. rewrite array_store_length.
    split; [exact Hlen|]. intros k it' Hk.
    destruct (Nat.eq_dec k (itemIndex s)) as [->|Hne].
    + rewrite (array_store_same _ _ _ Hn) in Hk. injection Hk as <-.
      exact (Hinv _ _ Hn).
    + rewrite array_store_other in Hk by lia. exact (Hinv _ _ Hk).
  - destruct (continueOnFail h); [|discriminate Hstep].
    unfold errorItem in Hstep.
    destruct (getInputData h (itemIndex s)) as [[|first rest]|];
      try discriminate Hstep.
    cbn [bind] in Hstep. injection Hstep as <-. cbn [items].
    rewrite length_app. split; [lia|]. intros k it' Hk.
    assert (Hi : (itemIndex s < length (items s))%nat)
      by (apply nth_error_Some; congruence).
    destruct (Nat.lt_ge_cases k (length (items s))) as [Hlt|Hge].
    + rewrite nth_error_app1 in Hk by exact Hlt. exact (Hinv _ _ Hk).
    + rewrite nth_error_app2 in Hk by exact Hge.
      destruct (k - length (items s))%nat as [|d] eqn:Hd;
        [|destruct d; discriminate Hk].
      injection Hk as <-.
      replace (nth_error items0 k) with (@None Item)
        by (symmetry; apply nth_error_None; lia).
      exists e, (itemIndex s). cbn [error pairedItem]. repeat split. lia.
Qed.

(** X14. Whatever the host, a run that returns has kept every input item
    at its place, with the same [json] object, [error] and [pairedItem];
    every item behind them holds an error and is paired with an index
    before its own position. *)
Theorem returned_items_keep_input (h : Host) (voice : jsstring)
    (pauseDuration : number) (items0 : list Item) (hp : Heap) (fuel : nat)
    (its : list Item) (hp' : Heap) :
  runLoop h voice pauseDuration fuel
    {| items := items0; heap := hp; itemIndex := 0 |}
  = Returned its hp' ->
  (length items0 <= length its)%nat
  /\ (forall k it, nth_error items0 k = Some it ->
        exists it', nth_error its k = Some it'
                    /\ json it' = json it /\ error it' = error it
                    /\ pairedItem it' = pairedItem it)
  /\ (forall k it', (length items0 <= k)%nat -> nth_error its k = Some it' ->
        exists e j, error it' = Some e /\ pairedItem it' = Some j
                    /\ (j < k)%nat).
Proof.
  intros Hrun.
  destruct (@returned_invariant h voice pauseDuration _
              (@loopStep_keeps h voice pauseDuration items0) fuel
              {| items := items0; heap := hp; itemIndex := 0 |} its hp')
    as (s' & [Hlen Hinv] & -> & _ & _); [|exact Hrun|].
  - cbn [items]. split; [apply Nat.le_refl|]. intros k it' Hk.
    rewrite Hk. auto.
  - split; [exact Hlen|]. split.
    + intros k it Hk.
      assert (Hlt : (k < length (items s'))%nat).
      { assert (k < length items0)%nat by (apply nth_error_Some; congruence).
        lia. }
      destruct (nth_error (items s') k) as [it'|] eqn:Hk';
        [|apply nth_error_None in Hk'; lia].
      exists it'. split; [reflexivity|].
      specialize (Hinv _ _ Hk'). now rewrite Hk in Hinv.
    + intros k it' Hge Hk. specialize (Hinv _ _ Hk).
      replace (nth_error items0 k) with (@None Item) in Hinv
        by (symmetry; now apply nth_error_None).
      exact Hinv.
Qed.

(** X14 on the three items of the example, of which the second fails. *)
Lemma returned_items_keep_input_witness :
  exists its hp',
    runLoop Example.threeItems (lit "af_heart") (dyadic 1 (-1)) 4
      {| items := Scenario.threeInputItems; heap := Example.threeHeap;
         itemIndex := 0 |}
    = Returned its hp'
    /\ (3 <= length its)%nat.
Proof.
  assert (H : exists its hp',
             runLoop Example.threeItems (lit "af_heart") (dyadic 1 (-1)) 4
               {| items := Scenario.threeInputItems;
                  heap := Example.threeHeap; itemIndex := 0 |}
             = Returned its hp')
    by (eexists; eexists; vm_compute; reflexivity).
  destruct H as (its & hp' & Hrun).
  exists its, hp'. split; [exact Hrun|].
  destruct (@returned_items_keep_input Example.threeItems
              (lit "af_heart") (dyadic 1 (-1)) Scenario.threeInputItems
              Example.threeHeap 4 its hp' Hrun) as (Hlen & _ & _).
  exact Hlen.
Defined.

(** ** Errors under [continueOnFail] *)

(** X15. On a host that continues on failure and whose [getInputData]
    answers every index with at least one item, the loop over the items
    never throws, whatever fails inside the processing of an item. *)
Theorem continue_on_fail_never_throws (h : Host) (voice : jsstring)
    (pauseDuration : number) :
  continueOnFail h = true ->
  (forall i, exists first rest, getInputData h i = Ok (first :: rest)) ->
  forall (fuel : nat) (s : LoopState) (e : exn),
    runLoop h voice pauseDuration fuel s <> Thrown e.
Proof.
  intros Hc Hin.
  assert (Hstep : forall s e, loopStep h voice pauseDuration s <> Abort e).
  { intros s e. unfold loopStep. cbv zeta.
    destruct (nth_error (items s) (itemIndex s)); [|discriminate].
    destruct (synthesizeItem h voice pauseDuration (itemIndex s));
      [discriminate|].
    rewrite Hc. unfold errorItem.
    destruct (Hin (itemIndex s)) as (first & rest & ->). discriminate. }
  induction fuel as [|fuel IH]; intros s e; cbn [runLoop];
    destruct (loopStep h voice pauseDuration s) as [s1|its hp|e1] eqn:H1;
    try discriminate.
  - intros H. injection H as ->. exact (Hstep _ _ H1).
  - apply IH.
  - intros H. injection H as ->. exact (Hstep _ _ H1).
Qed.

(** X15 on the three items of the example. *)
Lemma continue_on_fail_never_throws_witness :
  runLoop Example.threeItems (lit "af_heart") (dyadic 1 (-1)) 4
    {| items := Scenario.threeInputItems; heap := Example.threeHeap;
       itemIndex := 0 |}
  <> Thrown TypeError.
Proof.
  apply (@continue_on_fail_never_throws Example.threeItems (lit "af_heart")
           (dyadic 1 (-1))).
  - reflexivity.
  - intros i. destruct i as [|i]; cbn; eauto.
Defined.

(** X16. Even on a host that continues on failure, the run throws when
    the first item that fails is one for whose index [getInputData]
    answers with no item: the handler reads [json] of [undefined], and the
    [TypeError] leaves [execute] in place of the error of the item. *)
Theorem error_item_without_input_throws (h : Host) (voice : jsstring)
    (pauseDuration : number) (items0 : list Item) (hp : Heap)
    (k fuel : nat) (e : exn) :
  continueOnFail h = true ->
  (k < length items0)%nat ->
  (forall j, (j < k)%nat -> fails h voice pauseDuration j = false) ->
  synthesizeItem h voice pauseDuration k = Throw e ->
  getInputData h k = Ok [] ->
  (k <= fuel)%nat ->
  runLoop h voice pauseDuration fuel
    {| items := items0; heap := hp; itemIndex := 0 |}
  = Thrown TypeError.
Proof.
  intros Hc Hk Hok Hsyn Hin Hfuel.
  destruct (@success_prefix h voice pauseDuration items0 hp k
              (Nat.lt_le_incl _ _ Hk) Hok)
    as (s' & Hit & Hi & Hl & Hrest & _).
  rewrite (@runLoop_after h voice pauseDuration k _ s' fuel Hit Hfuel).
  assert (Hstep : loopStep h voice pauseDuration s' = Abort TypeError).
  { unfold loopStep. cbv zeta. rewrite Hi.
    destruct (nth_error (items s') k) eqn:E;
      [|apply nth_error_None in E; lia].
    rewrite Hsyn, Hc. unfold errorItem. now rewrite Hin. }
  destruct (fuel - k)%nat; cbn [runLoop]; now rewrite Hstep.
Qed.

(** X16 on the three items of the example, when only index 0 has input
    items: the failure of the second item ends the run. *)
Lemma error_item_without_input_throws_witness :
  runLoop Scenario.singleInput (lit "af_heart") (dyadic 1 (-1)) 5
    {| items := Scenario.threeInputItems; heap := Example.threeHeap;
       itemIndex := 0 |}
  = Thrown TypeError.
Proof.
  apply (@error_item_without_input_throws Scenario.singleInput
           (lit "af_heart") (dyadic 1 (-1)) Scenario.threeInputItems
           Example.threeHeap 1 5 (ForeignError 7)).
  - reflexivity.
  - repeat constructor.
  - intros j Hj. assert (j = 0%nat) as -> by lia. vm_compute. reflexivity.
  - vm_compute. reflexivity.
  - reflexivity.
  - repeat constructor.
Defined.
